(** * cpp_network_engine: the framing codec, the connection loops and the
      server registry, embedded from the C++ sources.

    - [net_message]  (lib/net_message.cpp, include/net_message.hpp)
    - [tcp_connection], [net_server]  (lib/net_server.cpp, net_server.hpp)
    - [net_client]  (lib/net_client.cpp, net_client.hpp)
    - [game]  (app/connect4_server.cpp): the board and the turn

    Conventions of the embedding.
    - [std::size_t] is a 64-bit unsigned and [int] a 32-bit signed integer;
      both are carried in [Z] and every conversion is written out
      ([to_size_t], [to_int]).
    - A [char] buffer is a [list byte] holding the bytes found from the
      buffer's first address on.  [memcpy] overwrites a range of it; a write
      that runs past the end of the list lengthens it, so an overrun of the
      516-byte array [data_] shows as [length (data_ m) > 516].  What the
      object holds behind [data_] is kept in fields of its own, which an
      overrun does not touch here; the statements that speak of those
      fields are made for lengths and runs that stay inside [data_]
      ([length_fits], [connection_run_fits], [server_run_fits]).
    - Storage that C++ leaves uninitialised is an explicit argument
      ([storage], [stack]): whatever the memory held before.
    - An asynchronous operation that a function starts is recorded in the
      socket (or acceptor) it is started on; its completion is an event.
    - What a function does besides updating its object (a line on
      [std::cerr], a callback it invokes) is returned as a list of
      [effect]s, in program order. *)

From Stdlib Require Import ZArith List Lia Bool Arith Sorted Permutation.
From Stdlib Require Import Strings.Byte Strings.String.
Import ListNotations.
Open Scope Z_scope.

(** ** Machine integers *)

Definition to_size_t (z : Z) : Z := z mod 2 ^ 64.

Definition to_int (z : Z) : Z := (z + 2 ^ 31) mod 2 ^ 32 - 2 ^ 31.

Definition byte_val (c : byte) : Z := Z.of_N (Byte.to_N c).

(** ** The C library functions the sources call *)

Module Libc.

Definition isdigit (c : byte) : bool :=
  (48 <=? byte_val c) && (byte_val c <=? 57).

(* ' ', '\t', '\n', '\v', '\f', '\r' *)
Definition isspace (c : byte) : bool :=
  (byte_val c =? 32) || ((9 <=? byte_val c) && (byte_val c <=? 13)).

Fixpoint skip_spaces (s : list byte) : list byte :=
  match s with
  | c :: r => if isspace c then skip_spaces r else s
  | [] => []
  end.

(* The digit loop of atoi: stops at the first byte that is not a decimal
   digit (the terminating NUL included). *)
Fixpoint digits_value (acc : Z) (s : list byte) : Z :=
  match s with
  | c :: r =>
      if isdigit c then digits_value (acc * 10 + (byte_val c - 48)) r
      else acc
  | [] => acc
  end.

(* int atoi(const char* s): [s] is the memory from the pointer on. *)
Definition atoi (s : list byte) : Z :=
  match skip_spaces s with
  | c :: r =>
      if byte_val c =? 45 then to_int (- digits_value 0 r)
      else if byte_val c =? 43 then to_int (digits_value 0 r)
      else to_int (digits_value 0 (c :: r))
  | [] => 0
  end.

Definition digit_char (d : Z) : byte :=
  match Byte.of_N (Z.to_N (48 + d)) with
  | Some c => c
  | None => "0"%byte
  end.

(* Decimal digits of a non-negative number, most significant first,
   pushed in front of [acc].  An int has at most ten of them. *)
Fixpoint decimal_aux (fuel : nat) (n : Z) (acc : list byte) : list byte :=
  match fuel with
  | O => acc
  | S fuel' =>
      let acc' := digit_char (n mod 10) :: acc in
      if n / 10 =? 0 then acc' else decimal_aux fuel' (n / 10) acc'
  end.

Definition decimal (n : Z) : list byte := decimal_aux 10 n [].

(* The characters sprintf(buf, "%4d", v) produces, without the final NUL:
   sign and digits, right-justified in a field of at least 4. *)
Definition sprintf_4d (v : Z) : list byte :=
  let s := (if v <? 0 then ["-"%byte] else []) ++ decimal (Z.abs v) in
  repeat " "%byte (4 - List.length s) ++ s.

(* memcpy(dst + off, src, n) *)
Definition memcpy (dst : list byte) (off : nat) (src : list byte) (n : nat)
  : list byte :=
  firstn off dst ++ firstn n src ++ skipn (off + n) dst.

Definition strlen (s : list byte) : Z := Z.of_nat (List.length s).

End Libc.

(** ** Effects *)

Inductive error_code :=
| ec_success
| ec_eof
| ec_connection_reset
| ec_other (value : nat).

Inductive diagnostic :=
| trimmed_warning                 (* "message length exceeds max_body_length and will be trimmed accordingly" *)
| decode_warning                  (* "In decode_header(), body_length_ > max_body_length" *)
| client_not_found (id : Z)       (* "Attempting to send a message to client <id>, but client not found." *)
| write_to_client_failed (id : Z) (ec : error_code)
| write_to_server_failed (ec : error_code).

Inductive effect :=
| Cerr (d : diagnostic)
| ReadHandler (sender : Z) (body : list byte) (length : Z)
| ClientReadHandler (body : list byte) (length : Z)
| AcceptHandler (id : Z) (connected : bool)
| DisconnectCallback.

(** ** net_message *)

Definition header_length : Z := 4.
Definition max_body_length : Z := 512.

Record net_message := {
  data_ : list byte;       (* char data_[header_length + max_body_length] *)
  body_length_ : Z         (* std::size_t *)
}.

(* net_message::net_message() *)
Definition net_message_default (storage : list byte) : net_message :=
  {| data_ := storage; body_length_ := 0 |}.

(* net_message::net_message(const char* body, std::size_t length).
   In the object body_length_ lies behind data_, and a body that reaches it
   overwrites it; here the field keeps [length] whatever is copied. *)
Definition net_message_ctor (storage body : list byte) (length : Z)
  : net_message * list effect :=
  let body_length := length in
  let warn :=
    if max_body_length <? length then [Cerr trimmed_warning] else [] in
  let header := Libc.sprintf_4d (to_int body_length) ++ [x00] in
  let data := Libc.memcpy storage 0 header (Z.to_nat header_length) in
  let data :=
    Libc.memcpy data (Z.to_nat header_length) body (Z.to_nat body_length) in
  ({| data_ := data; body_length_ := body_length |}, warn).

(* net_message::net_message(const net_message& other).  The bytes copied
   are those that [data_ other] holds; in the object body_length_ + 4 bytes
   are copied from a 516-byte array into a 516-byte array. *)
Definition net_message_copy (storage : list byte) (other : net_message)
  : net_message :=
  {| data_ := Libc.memcpy storage 0 (data_ other)
                (Z.to_nat (to_size_t (body_length_ other + header_length)));
     body_length_ := body_length_ other |}.

(* net_message& net_message::operator=(const net_message& other) *)
Definition net_message_assign (self other : net_message) : net_message :=
  {| data_ := Libc.memcpy (data_ self) 0 (data_ other)
                (Z.to_nat (body_length_ other));
     body_length_ := body_length_ other |}.

Definition get_data (m : net_message) : list byte := data_ m.

Definition get_body (m : net_message) : list byte :=
  skipn (Z.to_nat header_length) (data_ m).

Definition get_body_length (m : net_message) : Z := body_length_ m.

(* void net_message::decode_header().  The local array
   [char header[header_length + 1]] has no initialiser: [stack] is what its
   memory (and the bytes after it) holds on entry.  memcpy overwrites
   header[0..3]; header[4] keeps the byte it had, and atoi reads on from
   header[0] until a byte that is not a digit. *)
Definition decode_header (stack : list byte) (m : net_message)
  : net_message * list effect :=
  let header :=
    Libc.memcpy stack 0 (data_ m) (Z.to_nat header_length) in
  let body_length := to_size_t (Libc.atoi header) in
  ({| data_ := data_ m; body_length_ := body_length |},
   if max_body_length <? body_length then [Cerr decode_warning] else []).

(* What async_write hands to the socket for a queued message:
   boost::asio::buffer(get_data(), get_body_length() + header_length). *)
Definition write_buffer (m : net_message) : list byte :=
  firstn (Z.to_nat (to_size_t (get_body_length m + header_length)))
         (get_data m).

(** ** State and effects of a member function

    A member function of an object of type [St] is a function from the
    object's state to a result, the new state and the effects produced. *)

Definition M (St A : Type) : Type := St -> A * St * list effect.

Definition ret {St A} (a : A) : M St A := fun s => (a, s, []).

Definition bind {St A B} (m : M St A) (k : A -> M St B) : M St B :=
  fun s =>
    let '(a, s1, e1) := m s in
    let '(b, s2, e2) := k a s1 in
    (b, s2, e1 ++ e2).

Definition get {St} : M St St := fun s => (s, s, []).
Definition modify {St} (f : St -> St) : M St unit := fun s => (tt, f s, []).
Definition emit {St} (e : effect) : M St unit := fun s => (tt, s, [e]).
Definition emit_all {St} (es : list effect) : M St unit :=
  fun s => (tt, s, es).

Definition exec {St A} (m : M St A) (s : St) : St := snd (fst (m s)).
Definition effects {St A} (m : M St A) (s : St) : list effect := snd (m s).

Declare Scope member_scope.
Delimit Scope member_scope with member.
Notation "x <- m ;; k" := (bind m (fun x => k))
  (at level 61, m at next level, right associativity) : member_scope.
Notation "m ;; k" := (bind m (fun _ => k))
  (at level 61, right associativity) : member_scope.
Open Scope member_scope.

(** ** The asio objects

    A socket records the asynchronous operations started on it and not yet
    completed, oldest first, and the buffers whose write has completed
    without error, in completion order. *)

Inductive read_op :=
| read_header_op                (* async_read of header_length bytes into data_ *)
| read_body_op (n : Z).         (* async_read of n bytes into data_ + header_length *)

Record socket := {
  reads : list read_op;
  writes : list (list byte);
  wire_out : list (list byte)
}.

Definition fresh_socket : socket :=
  {| reads := []; writes := []; wire_out := [] |}.

Record acceptor := { accepts : nat }.      (* outstanding async_accept calls *)

(** ** Uninitialised storage

    One value stands for the contents of every storage of a kind that the
    program obtains and does not initialise. *)

Record uninitialised := {
  fresh_message : list byte;    (* a net_message's data_ before its constructor runs *)
  fresh_header : list byte      (* the local header array of decode_header *)
}.

(** ** tcp_connection *)

Record tcp_connection := {
  socket_ : socket;
  valid_ : bool;
  read_message_ : net_message;
  write_messages_ : list net_message;       (* std::deque<net_message> *)
  id_ : Z                                   (* int *)
}.

Definition set_socket (f : socket -> socket) (c : tcp_connection) :=
  {| socket_ := f (socket_ c); valid_ := valid_ c;
     read_message_ := read_message_ c;
     write_messages_ := write_messages_ c; id_ := id_ c |}.

Definition set_read_message (m : net_message) (c : tcp_connection) :=
  {| socket_ := socket_ c; valid_ := valid_ c; read_message_ := m;
     write_messages_ := write_messages_ c; id_ := id_ c |}.

Definition set_write_messages (q : list net_message) (c : tcp_connection) :=
  {| socket_ := socket_ c; valid_ := valid_ c;
     read_message_ := read_message_ c; write_messages_ := q; id_ := id_ c |}.

Definition start_write (buffer : list byte) (s : socket) : socket :=
  {| reads := reads s; writes := writes s ++ [buffer];
     wire_out := wire_out s |}.

Definition start_read (op : read_op) (s : socket) : socket :=
  {| reads := reads s ++ [op]; writes := writes s; wire_out := wire_out s |}.

Definition is_error (ec : error_code) : bool :=
  match ec with ec_success => false | _ => true end.

Section Connection.

Variable u : uninitialised.

(* tcp_connection::tcp_connection(socket, int id, read_handler, disconnect) *)
Definition tcp_connection_ctor (id : Z) : tcp_connection :=
  {| socket_ := fresh_socket; valid_ := true;
     read_message_ := net_message_default (fresh_message u);
     write_messages_ := []; id_ := to_int id |}.

Definition get_id (c : tcp_connection) : Z := id_ c.

Definition valid (c : tcp_connection) : bool := valid_ c.

(* front() is only reached with a message in the queue: send pushes before
   it calls do_write, the completion handler tests empty() first. *)
Definition do_write : M tcp_connection unit :=
  c <- get ;;
  match write_messages_ c with
  | front :: _ => modify (set_socket (start_write (write_buffer front)))
  | [] => ret tt
  end.

(* The completion handler that do_write passes to async_write. *)
Definition handle_write (ec : error_code) : M tcp_connection unit :=
  if negb (is_error ec) then
    modify (fun c => set_write_messages (tl (write_messages_ c)) c) ;;
    c <- get ;;
    match write_messages_ c with
    | _ :: _ => do_write
    | [] => ret tt
    end
  else
    c <- get ;;
    emit (Cerr (write_to_client_failed (id_ c) ec)).

(* void tcp_connection::send(net_message msg): the argument is passed by
   value and push_back copies it into the deque. *)
Definition send (msg : net_message) : M tcp_connection unit :=
  let msg := net_message_copy (fresh_message u) msg in
  c <- get ;;
  let write_in_progress :=
    match write_messages_ c with [] => false | _ => true end in
  modify (fun c =>
    set_write_messages
      (write_messages_ c ++ [net_message_copy (fresh_message u) msg]) c) ;;
  if negb write_in_progress then do_write else ret tt.

Definition read_header : M tcp_connection unit :=
  modify (set_socket (start_read read_header_op)).

Definition read_body : M tcp_connection unit :=
  c <- get ;;
  modify (set_socket
            (start_read (read_body_op (get_body_length (read_message_ c))))).

Definition first_message : list byte :=
  list_byte_of_string "server: connected".

Definition start : M tcp_connection unit :=
  let '(msg, warn) :=
    net_message_ctor (fresh_message u) first_message
                     (Libc.strlen first_message) in
  emit_all warn ;;
  send msg ;;
  read_header.

Definition handle_read_header (e : error_code) : M tcp_connection unit :=
  match e with
  | ec_eof | ec_connection_reset => emit DisconnectCallback
  | _ =>
      c <- get ;;
      let '(m, warn) := decode_header (fresh_header u) (read_message_ c) in
      modify (set_read_message m) ;;
      emit_all warn ;;
      read_body
  end.

Definition handle_read_body (e : error_code) : M tcp_connection unit :=
  c <- get ;;
  let n := get_body_length (read_message_ c) in
  let body := firstn (Z.to_nat n) (get_body (read_message_ c)) ++ [x00] in
  emit (ReadHandler (to_size_t (id_ c)) body n) ;;
  read_header.

End Connection.

(** ** Completion of an asynchronous operation on a connection

    asio completes the oldest outstanding operation of its kind, deposits
    the bytes transferred into the buffer the operation was given, and then
    invokes the handler.  A completion for which no operation is outstanding
    cannot happen ([None]). *)

Inductive completion :=
| write_completes (ec : error_code)
| read_completes (ec : error_code) (transferred : list byte).

Definition finish_write (ec : error_code) (buffer : list byte)
    (rest : list (list byte)) (s : socket) : socket :=
  {| reads := reads s; writes := rest;
     wire_out := if is_error ec then wire_out s else wire_out s ++ [buffer] |}.

Definition finish_read (rest : list read_op) (s : socket) : socket :=
  {| reads := rest; writes := writes s; wire_out := wire_out s |}.

(* The bytes an async_read of [n] bytes at offset [off] leaves in data_.
   Bytes that do not fit lengthen [data_]; in the object they land on what
   lies behind it. *)
Definition deposit (off n : Z) (transferred : list byte) (m : net_message)
  : net_message :=
  let received := firstn (Z.to_nat n) transferred in
  {| data_ := Libc.memcpy (data_ m) (Z.to_nat off) received
                          (List.length received);
     body_length_ := body_length_ m |}.

Definition complete (u : uninitialised) (k : completion) (c : tcp_connection)
  : option (tcp_connection * list effect) :=
  match k with
  | write_completes ec =>
      match writes (socket_ c) with
      | buffer :: rest =>
          let c := set_socket (finish_write ec buffer rest) c in
          Some (exec (handle_write ec) c, effects (handle_write ec) c)
      | [] => None
      end
  | read_completes ec transferred =>
      match reads (socket_ c) with
      | read_header_op :: rest =>
          let c := set_socket (finish_read rest) c in
          let c := set_read_message
                     (deposit 0 header_length transferred (read_message_ c))
                     c in
          Some (exec (handle_read_header u ec) c,
                effects (handle_read_header u ec) c)
      | read_body_op n :: rest =>
          let c := set_socket (finish_read rest) c in
          let c := set_read_message
                     (deposit header_length n transferred (read_message_ c))
                     c in
          Some (exec (handle_read_body ec) c,
                effects (handle_read_body ec) c)
      | [] => None
      end
  end.

(* What can happen to one connection: the server calls start or send, or
   one of the connection's asynchronous operations completes. *)
Inductive connection_event :=
| start_called
| send_called (msg : net_message)
| io_completes (k : completion).

Definition connection_step (u : uninitialised) (ev : connection_event)
    (c : tcp_connection) : option (tcp_connection * list effect) :=
  match ev with
  | start_called => Some (exec (start u) c, effects (start u) c)
  | send_called msg => Some (exec (send u msg) c, effects (send u msg) c)
  | io_completes k => complete u k c
  end.

Fixpoint connection_run (u : uninitialised) (evs : list connection_event)
    (c : tcp_connection) : option (tcp_connection * list effect) :=
  match evs with
  | [] => Some (c, [])
  | ev :: evs' =>
      match connection_step u ev c with
      | Some (c1, es1) =>
          match connection_run u evs' c1 with
          | Some (c2, es2) => Some (c2, es1 ++ es2)
          | None => None
          end
      | None => None
      end
  end.

(* The messages handed to send by a sequence of events, in order; start
   sends the greeting. *)
Fixpoint sent_messages (u : uninitialised) (evs : list connection_event)
  : list net_message :=
  match evs with
  | [] => []
  | start_called :: evs' =>
      fst (net_message_ctor (fresh_message u) first_message
                            (Libc.strlen first_message))
      :: sent_messages u evs'
  | send_called msg :: evs' => msg :: sent_messages u evs'
  | io_completes _ :: evs' => sent_messages u evs'
  end.

(** ** std::lower_bound

    The binary search of the standard library over positions
    [first, first + len) of [l]; [comp x] is the comparison of an element
    with the value searched for. *)

Section LowerBound.

Context {A : Type}.
Variable comp : A -> bool.
Variable l : list A.

Fixpoint lower_bound_loop (fuel first len : nat) : nat :=
  match fuel with
  | O => first
  | S fuel' =>
      if (len =? 0)%nat then first
      else
        let half := Nat.div2 len in
        let middle := (first + half)%nat in
        match nth_error l middle with
        | Some x =>
            if comp x
            then lower_bound_loop fuel' (S middle) (len - half - 1)
            else lower_bound_loop fuel' first half
        | None => first
        end
  end.

(* The iterator returned, as a position; [length l] is end(). *)
Definition lower_bound : nat :=
  lower_bound_loop (List.length l) 0 (List.length l).

End LowerBound.

(** ** net_server

    [connections_] is a std::list of shared pointers.  Every entry points to
    its own object (one make_shared per push_back), so a pointer into the
    registry is the position of its entry. *)

Record net_server := {
  acceptor_ : acceptor;
  next_id_ : Z;                             (* std::size_t *)
  connections_ : list tcp_connection
}.

Definition set_connections (cs : list tcp_connection) (s : net_server) :=
  {| acceptor_ := acceptor_ s; next_id_ := next_id_ s; connections_ := cs |}.

Definition set_next_id (n : Z) (s : net_server) :=
  {| acceptor_ := acceptor_ s; next_id_ := n;
     connections_ := connections_ s |}.

Definition set_accepts (n : nat) (s : net_server) :=
  {| acceptor_ := {| accepts := n |}; next_id_ := next_id_ s;
     connections_ := connections_ s |}.

Definition replace_nth {A} (i : nat) (x : A) (l : list A) : list A :=
  firstn i l ++ match skipn i l with [] => [] | _ :: r => x :: r end.

Definition remove_nth {A} (i : nat) (l : list A) : list A :=
  firstn i l ++ skipn (S i) l.

(* connection->f(...) for the connection at position [i]. *)
Definition at_connection (i : nat) (f : M tcp_connection unit)
  : M net_server unit :=
  fun s =>
    match nth_error (connections_ s) i with
    | Some c =>
        let '(_, c', es) := f c in
        (tt, set_connections (replace_nth i c' (connections_ s)) s, es)
    | None => (tt, s, [])
    end.

(* for (auto& connection : connections_) body *)
Fixpoint for_each (body : M tcp_connection unit) (cs : list tcp_connection)
  : list tcp_connection * list effect :=
  match cs with
  | [] => ([], [])
  | c :: cs' =>
      let '(_, c', es) := body c in
      let '(cs'', es') := for_each body cs' in
      (c' :: cs'', es ++ es')
  end.

Definition for_each_connection (body : M tcp_connection unit)
  : M net_server unit :=
  fun s =>
    let '(cs, es) := for_each body (connections_ s) in
    (tt, set_connections cs s, es).

Section Server.

Variable u : uninitialised.

Definition start_accept : M net_server unit :=
  modify (fun s => set_accepts (S (accepts (acceptor_ s))) s).

(* net_server::net_server(io_context, port, accept_handler, read_handler) *)
Definition net_server_ctor : net_server :=
  exec start_accept
    {| acceptor_ := {| accepts := 0 |}; next_id_ := 0;
       connections_ := [] |}.

(* void net_server::client_disconnect(std::shared_ptr<tcp_connection>):
   list::remove erases the entries equal to the pointer, that is the
   entry of the connection itself. *)
Definition client_disconnect (connection : nat) : M net_server unit :=
  s <- get ;;
  match nth_error (connections_ s) connection with
  | Some c =>
      let id := to_size_t (get_id c) in
      modify (fun s =>
        set_connections (remove_nth connection (connections_ s)) s) ;;
      emit (AcceptHandler id false)
  | None => ret tt
  end.

(* The handler that start_accept passes to async_accept. *)
Definition handle_accept (ec : error_code) : M net_server unit :=
  (if negb (is_error ec) then
     s <- get ;;
     let id := next_id_ s in
     modify (set_next_id (to_size_t (next_id_ s + 1))) ;;
     modify (fun s =>
       set_connections (connections_ s ++ [tcp_connection_ctor u id]) s) ;;
     s <- get ;;
     let connection := (List.length (connections_ s) - 1)%nat in
     at_connection connection (start u) ;;
     emit (AcceptHandler id true)
   else ret tt) ;;
  start_accept.

(* std::shared_ptr<tcp_connection> net_server::find_connection(id):
   [None] is nullptr. *)
Definition find_connection (id : Z) (s : net_server) : option nat :=
  let iterator :=
    lower_bound (fun c1 => to_size_t (get_id c1) <? id) (connections_ s) in
  if (iterator =? List.length (connections_ s))%nat then None
  else Some iterator.

Definition send_to (id : Z) (body : list byte) (length : Z)
  : M net_server unit :=
  s <- get ;;
  match find_connection id s with
  | None => emit (Cerr (client_not_found id))
  | Some connection =>
      let '(msg, warn) := net_message_ctor (fresh_message u) body length in
      emit_all warn ;;
      at_connection connection (send u msg)
  end.

Definition send_to_all (body : list byte) (length : Z)
  : M net_server unit :=
  let '(msg, warn) := net_message_ctor (fresh_message u) body length in
  emit_all warn ;;
  for_each_connection
    (c <- get ;;
     if negb (valid c) then ret tt
     else send u msg).

Definition send_to_all_except (id : Z) (body : list byte) (length : Z)
  : M net_server unit :=
  let '(msg, warn) := net_message_ctor (fresh_message u) body length in
  emit_all warn ;;
  for_each_connection
    (c <- get ;;
     if to_size_t (get_id c) =? id then ret tt
     else if negb (valid c) then ret tt
     else send u msg).

(* The callbacks a connection invokes, as the server bound them:
   disconnect_ is client_disconnect, everything else goes to the
   application. *)
Fixpoint dispatch (connection : nat) (es : list effect)
  : M net_server unit :=
  match es with
  | [] => ret tt
  | DisconnectCallback :: es' =>
      client_disconnect connection ;; dispatch connection es'
  | e :: es' => emit e ;; dispatch connection es'
  end.

(** What can happen to a server: an accept completes, an operation of one
    of its connections completes, or the application calls one of the
    three send functions. *)
Inductive server_event :=
| accept_completes (ec : error_code)
| connection_completes (connection : nat) (k : completion)
| send_to_called (id : Z) (body : list byte) (length : Z)
| send_to_all_called (body : list byte) (length : Z)
| send_to_all_except_called (id : Z) (body : list byte) (length : Z).

Definition run_member (f : M net_server unit) (s : net_server)
  : option (net_server * list effect) :=
  Some (exec f s, effects f s).

Definition server_step (ev : server_event) (s : net_server)
  : option (net_server * list effect) :=
  match ev with
  | accept_completes ec =>
      match accepts (acceptor_ s) with
      | S n => run_member (handle_accept ec) (set_accepts n s)
      | O => None
      end
  | connection_completes i k =>
      match nth_error (connections_ s) i with
      | Some c =>
          match complete u k c with
          | Some (c', es) =>
              run_member (dispatch i es)
                (set_connections (replace_nth i c' (connections_ s)) s)
          | None => None
          end
      | None => None
      end
  | send_to_called id body length => run_member (send_to id body length) s
  | send_to_all_called body length =>
      run_member (send_to_all body length) s
  | send_to_all_except_called id body length =>
      run_member (send_to_all_except id body length) s
  end.

Fixpoint server_run (evs : list server_event) (s : net_server)
  : option (net_server * list effect) :=
  match evs with
  | [] => Some (s, [])
  | ev :: evs' =>
      match server_step ev s with
      | Some (s1, es1) =>
          match server_run evs' s1 with
          | Some (s2, es2) => Some (s2, es1 ++ es2)
          | None => None
          end
      | None => None
      end
  end.

End Server.

(** ** net_client *)

Module Client.

Record net_client := {
  socket_ : socket;
  read_message_ : net_message;
  write_messages_ : list net_message
}.

Definition set_socket (f : socket -> socket) (c : net_client) :=
  {| socket_ := f (socket_ c); read_message_ := read_message_ c;
     write_messages_ := write_messages_ c |}.

Definition set_read_message (m : net_message) (c : net_client) :=
  {| socket_ := socket_ c; read_message_ := m;
     write_messages_ := write_messages_ c |}.

Definition set_write_messages (q : list net_message) (c : net_client) :=
  {| socket_ := socket_ c; read_message_ := read_message_ c;
     write_messages_ := q |}.

Section Members.

Variable u : uninitialised.

Definition read_header : M net_client unit :=
  modify (set_socket (start_read read_header_op)).

(* socket_.connect(...) throws when the peer cannot be reached; the
   members below are those of a client whose connect returned. *)
Definition connect : M net_client unit := read_header.

Definition net_client_ctor : net_client :=
  exec connect
    {| socket_ := fresh_socket;
       read_message_ := net_message_default (fresh_message u);
       write_messages_ := [] |}.

Definition read_body : M net_client unit :=
  c <- get ;;
  modify (set_socket
            (start_read
               (read_body_op (get_body_length (read_message_ c))))).

Definition handle_read_header (e : error_code) : M net_client unit :=
  c <- get ;;
  let '(m, warn) := decode_header (fresh_header u) (read_message_ c) in
  modify (set_read_message m) ;;
  emit_all warn ;;
  read_body.

Definition handle_read_body (e : error_code) : M net_client unit :=
  c <- get ;;
  let n := get_body_length (read_message_ c) in
  let body := firstn (Z.to_nat n) (get_body (read_message_ c)) in
  emit (ClientReadHandler body n) ;;
  read_header.

Definition do_write : M net_client unit :=
  c <- get ;;
  match write_messages_ c with
  | front :: _ => modify (set_socket (start_write (write_buffer front)))
  | [] => ret tt
  end.

Definition handle_write (ec : error_code) : M net_client unit :=
  if negb (is_error ec) then
    modify (fun c => set_write_messages (tl (write_messages_ c)) c) ;;
    c <- get ;;
    match write_messages_ c with
    | _ :: _ => do_write
    | [] => ret tt
    end
  else
    emit (Cerr (write_to_server_failed ec)).

(* void net_client::send(const char* body, std::size_t length):
   emplace_back constructs the message in the deque. *)
Definition send (body : list byte) (length : Z) : M net_client unit :=
  c <- get ;;
  let write_in_progress :=
    match write_messages_ c with [] => false | _ => true end in
  let '(msg, warn) := net_message_ctor (fresh_message u) body length in
  modify (fun c => set_write_messages (write_messages_ c ++ [msg]) c) ;;
  emit_all warn ;;
  if negb write_in_progress then do_write else ret tt.

Definition get_max_body_length : Z := max_body_length.

Definition complete (k : completion) (c : net_client)
  : option (net_client * list effect) :=
  match k with
  | write_completes ec =>
      match writes (socket_ c) with
      | buffer :: rest =>
          let c := set_socket (finish_write ec buffer rest) c in
          Some (exec (handle_write ec) c, effects (handle_write ec) c)
      | [] => None
      end
  | read_completes ec transferred =>
      match reads (socket_ c) with
      | read_header_op :: rest =>
          let c := set_socket (finish_read rest) c in
          let c :=
            set_read_message
              (deposit 0 header_length transferred (read_message_ c)) c in
          Some (exec (handle_read_header ec) c,
                effects (handle_read_header ec) c)
      | read_body_op n :: rest =>
          let c := set_socket (finish_read rest) c in
          let c :=
            set_read_message
              (deposit header_length n transferred (read_message_ c)) c in
          Some (exec (handle_read_body ec) c,
                effects (handle_read_body ec) c)
      | [] => None
      end
  end.

(* A run of the client's read loop: the completions of its reads, in
   order. *)
Fixpoint read_loop (ks : list (error_code * list byte)) (c : net_client)
  : option (net_client * list effect) :=
  match ks with
  | [] => Some (c, [])
  | (ec, transferred) :: ks' =>
      match complete (read_completes ec transferred) c with
      | Some (c1, es1) =>
          match read_loop ks' c1 with
          | Some (c2, es2) => Some (c2, es1 ++ es2)
          | None => None
          end
      | None => None
      end
  end.

End Members.

End Client.

(** ** Runs of a client *)

(* What can happen to a client: the application calls send, or one of the
   client's asynchronous operations completes.  A run is a sequence of such
   events, each one finished before the next begins: net_client has no lock,
   and a run says nothing of a send that is called on one thread while a
   completion handler runs on another. *)
Inductive client_event :=
| client_sends (body : list byte) (length : Z)
| client_io_completes (k : completion).

Definition client_step (u : uninitialised) (ev : client_event)
    (c : Client.net_client) : option (Client.net_client * list effect) :=
  match ev with
  | client_sends body length =>
      Some (exec (Client.send u body length) c,
            effects (Client.send u body length) c)
  | client_io_completes k => Client.complete u k c
  end.

Fixpoint client_run (u : uninitialised) (evs : list client_event)
    (c : Client.net_client) : option (Client.net_client * list effect) :=
  match evs with
  | [] => Some (c, [])
  | ev :: evs' =>
      match client_step u ev c with
      | Some (c1, es1) =>
          match client_run u evs' c1 with
          | Some (c2, es2) => Some (c2, es1 ++ es2)
          | None => None
          end
      | None => None
      end
  end.

(** ** The game of the connect4 server *)

Module Connect4.

(* enum tile { empty=0, x=1, o=2 } *)
Definition empty : Z := 0.
Definition x : Z := 1.
Definition o : Z := 2.

Definition rows : nat := 6.
Definition cols : nat := 7.

(* The board and the turn of a game; the pointers to the players and to the
   server are left out.  [board] is the memory from board[0][0] on, one
   element per tile and row after row: the rows * cols tiles of the array,
   and then what lies behind the array, where check_for_win reads, its first
   index running up to cols - 1.  [turn] is kept in a field of its own and,
   as in the object, in the low byte of the first word behind the array
   (set_turn). *)
Record game := {
  board : list Z;       (* tile board[rows][cols] *)
  turn : byte           (* char turn *)
}.

(* board[i][j] *)
Definition tile_at (g : game) (i j : nat) : Z :=
  nth (i * cols + j) (board g) 0.

(* board[i][j] = t *)
Definition set_tile (i j : nat) (t : Z) (g : game) : game :=
  {| board := replace_nth (i * cols + j) t (board g); turn := turn g |}.

(* turn = t.  In the object char turn lies directly behind the board: it is
   the low byte of the word that board[rows][0] reads, the other three
   bytes of that word being padding.  A write to turn changes that word,
   where the memory given reaches that far. *)
Definition set_turn (t : byte) (g : game) : game :=
  {| board :=
       let w := nth (rows * cols) (board g) 0 in
       replace_nth (rows * cols) (w - w mod 256 + byte_val t) (board g);
     turn := t |}.

(* game(player* p1, player* p2, net_server* server_ptr_): the constructor
   sets the turn and leaves the board as the memory holds it. *)
Definition game_ctor (memory : list Z) : game :=
  set_turn "1" {| board := memory; turn := "1"%byte |}.

Definition clear_board (g : game) : game :=
  fold_left
    (fun g y => fold_left (fun g x' => set_tile y x' empty g) (seq 0 cols) g)
    (seq 0 rows) g.

Definition get_turn (g : game) : byte := turn g.

Definition toggle_turn (g : game) : game :=
  if Byte.eqb (turn g) "1" then set_turn "2" g else set_turn "1" g.

Definition apply_move (player_num : byte) (row col : nat) (g : game) : game :=
  if Byte.eqb player_num "1" then set_tile row col x g
  else set_tile row col o g.

(* Each pair of loops returns true at the first hit; the reads have no
   effect, so that the result is the disjunction over the loops. *)
Definition check_for_win (player_num : byte) (g : game) : bool :=
  let tile_ := if Byte.eqb player_num "2" then o else x in
  let has i j := tile_at g i j =? tile_ in
  (* horizontal check *)
  existsb (fun j =>
    existsb (fun i =>
      has i j && has i (j + 1) && has i (j + 2) && has i (j + 3))%nat
      (seq 0 cols))
    (seq 0 (rows - 3))
  ||
  (* vertical check *)
  existsb (fun i =>
    existsb (fun j =>
      has i j && has (i + 1) j && has (i + 2) j && has (i + 3) j)%nat
      (seq 0 rows))
    (seq 0 (cols - 3))
  ||
  (* bottom left to top right diagonal *)
  existsb (fun i =>
    existsb (fun j =>
      has i j && has (i - 1) (j + 1) && has (i - 2) (j + 2)
      && has (i - 3) (j + 3))%nat
      (seq 0 (rows - 3)))
    (seq 3 (cols - 3))
  ||
  (* top left to bottom right diagonal *)
  existsb (fun i =>
    existsb (fun j =>
      has i j && has (i - 1) (j - 1) && has (i - 2) (j - 2)
      && has (i - 3) (j - 3))%nat
      (seq 3 (rows - 3)))
    (seq 3 (cols - 3)).

Definition check_for_draw (g : game) : bool :=
  negb (existsb (fun i => tile_at g 0 i =? empty) (seq 0 cols)).

Definition game_over (g : game) : game := set_turn "0" g.

End Connect4.

(** ** Vocabulary of the statements *)

(* atoi stops in front of [tail]: there is no byte, or one that is not a
   decimal digit. *)
Definition stops (tail : list byte) : bool :=
  match tail with
  | [] => true
  | c :: _ => negb (Libc.isdigit c)
  end.

Definition bytes (s : string) : list byte := list_byte_of_string s.

(* Uninitialised storage that happens to hold zero bytes. *)
Definition zeroed : uninitialised :=
  {| fresh_message := repeat x00 516; fresh_header := repeat x00 5 |}.

(* The element that send appends to the queue for [msg]: the copy made by
   push_back of the copy made for the by-value parameter. *)
Definition queued (u : uninitialised) (msg : net_message) : net_message :=
  net_message_copy (fresh_message u) (net_message_copy (fresh_message u) msg).

(* The state of a connection's write loop after the messages [enqueued]
   were handed to send: the messages not yet written are the queue, the
   others went to the peer in their order, and an outstanding write is the
   only one and is of the message at the head of the queue. *)
Definition write_loop_state (enqueued : list net_message)
    (c : tcp_connection) : Prop :=
  exists done : list net_message,
    enqueued = done ++ write_messages_ c /\
    wire_out (socket_ c) = map write_buffer done /\
    (writes (socket_ c) = [] \/
     exists m q, write_messages_ c = m :: q /\
                 writes (socket_ c) = [write_buffer m]).

(* The error codes that handle_read_header takes for a disconnection. *)
Definition peer_closed (ec : error_code) : bool :=
  match ec with
  | ec_eof | ec_connection_reset => true
  | _ => false
  end.

(* The number of connections accepted by a sequence of server events. *)
Fixpoint accepted (evs : list server_event) : Z :=
  match evs with
  | [] => 0
  | accept_completes ec_success :: evs' => 1 + accepted evs'
  | _ :: evs' => accepted evs'
  end.

(* The ids announced to the application's accept handler as connected, in
   the order of the calls. *)
Fixpoint assigned_ids (es : list effect) : list Z :=
  match es with
  | [] => []
  | AcceptHandler id true :: es' => id :: assigned_ids es'
  | _ :: es' => assigned_ids es'
  end.

(* The ids announced to the accept handler as disconnected. *)
Fixpoint released_ids (es : list effect) : list Z :=
  match es with
  | [] => []
  | AcceptHandler id false :: es' => id :: released_ids es'
  | _ :: es' => released_ids es'
  end.

(* The number of messages delivered to the client's read handler. *)
Fixpoint deliveries (es : list effect) : nat :=
  match es with
  | [] => O
  | ClientReadHandler _ _ :: es' => S (deliveries es')
  | _ :: es' => deliveries es'
  end.

(* first, first + 1, ..., first + count - 1 *)
Fixpoint count_from (first : Z) (count : nat) : list Z :=
  match count with
  | O => []
  | S count' => first :: count_from (first + 1) count'
  end.

(* What the registry shows of its connections: id and validity flag. *)
Definition key (c : tcp_connection) : Z * bool := (get_id c, valid c).

Definition registry_keys (s : net_server) : list (Z * bool) :=
  map key (connections_ s).

(* The registry of a server that has assigned the ids below [next]: the
   connections are in ascending order of id and their ids are below
   [next]. *)
Definition registry_ok (next : Z) (s : net_server) : Prop :=
  next_id_ s = next /\
  StronglySorted Z.lt (map fst (registry_keys s)) /\
  Forall (fun k => 0 <= fst k < next) (registry_keys s).

Definition all_valid (s : net_server) : Prop :=
  Forall (fun k => snd k = true) (registry_keys s).

(* The effects of a connection that the server hands on as they are. *)
Definition plain_effect (e : effect) : Prop :=
  match e with
  | Cerr _ | ReadHandler _ _ _ => True
  | _ => False
  end.

(** ** Runs that stay inside data_

    What an object holds behind the 516 bytes of data_ (body_length_, and
    in a connection the queue and the id) is not part of the buffer in this
    embedding, and an overrun of data_ leaves it as it is.  The statements
    about runs are therefore made for the runs in which nothing is written
    behind data_: every message handed over has a body of at most
    max_body_length bytes, and every read that is started is a read of at
    most max_body_length bytes. *)

Definition length_fits (n : Z) : bool :=
  (0 <=? n) && (n <=? max_body_length).

(* A message in its 516 bytes. *)
Definition message_fits (m : net_message) : bool :=
  length_fits (body_length_ m) && (516 <=? List.length (data_ m))%nat.

Definition read_fits (op : read_op) : bool :=
  match op with
  | read_header_op => true
  | read_body_op n => length_fits n
  end.

(* Every read outstanding on the connection stays inside data_. *)
Definition connection_fits (c : tcp_connection) : bool :=
  forallb read_fits (reads (socket_ c)).

Definition connection_event_fits (ev : connection_event) : bool :=
  match ev with
  | send_called msg => message_fits msg
  | _ => true
  end.

(* No event of the run hands over a message that does not fit, and no step
   of the run leaves a read outstanding that does not fit. *)
Fixpoint connection_run_fits (u : uninitialised)
    (evs : list connection_event) (c : tcp_connection) : bool :=
  match evs with
  | [] => true
  | ev :: evs' =>
      connection_event_fits ev &&
      match connection_step u ev c with
      | Some (c1, _) => connection_fits c1 && connection_run_fits u evs' c1
      | None => true
      end
  end.

Definition server_event_fits (ev : server_event) : bool :=
  match ev with
  | send_to_called _ _ length => length_fits length
  | send_to_all_called _ length => length_fits length
  | send_to_all_except_called _ _ length => length_fits length
  | _ => true
  end.

Definition server_fits (s : net_server) : bool :=
  forallb connection_fits (connections_ s).

Fixpoint server_run_fits (u : uninitialised) (evs : list server_event)
    (s : net_server) : bool :=
  match evs with
  | [] => true
  | ev :: evs' =>
      server_event_fits ev &&
      match server_step u ev s with
      | Some (s1, _) => server_fits s1 && server_run_fits u evs' s1
      | None => true
      end
  end.

(* The byte after the four header bytes of decode_header's local array is
   NUL. *)
Definition terminated (stack : list byte) : bool :=
  match skipn 4 stack with
  | [] => false
  | c :: _ => byte_val c =? 0
  end.

(* The message that start sends to every new connection. *)
Definition greeting (u : uninitialised) : net_message :=
  fst (net_message_ctor (fresh_message u) first_message
                        (Libc.strlen first_message)).

(* The write loop of a connection that the server has started: the greeting
   was the first message handed to send. *)
Definition started_write_loop (u : uninitialised) (c : tcp_connection)
  : Prop :=
  exists enqueued, write_loop_state (queued u (greeting u) :: enqueued) c.

(* What one event of a server does to the registry [cs] and to the id
   counter [next], with the effects that reach the application. *)
Inductive registry_change (u : uninitialised) (cs : list tcp_connection)
    (next : Z) : list tcp_connection -> Z -> list effect -> Prop :=
| accepted_one :
    registry_change u cs next
      (cs ++ [exec (start u) (tcp_connection_ctor u next)])
      (to_size_t (next + 1)) [AcceptHandler next true]
| disconnected_one i c c' k :
    nth_error cs i = Some c ->
    complete u k c = Some (c', [DisconnectCallback]) ->
    registry_change u cs next (remove_nth i cs) next
      [AcceptHandler (to_size_t (get_id c)) false]
| completed_one i c c' k es :
    nth_error cs i = Some c ->
    complete u k c = Some (c', es) ->
    Forall plain_effect es ->
    registry_change u cs next (replace_nth i c' cs) next es
| sent_one i c msg es :
    nth_error cs i = Some c ->
    Forall plain_effect es ->
    registry_change u cs next (replace_nth i (exec (send u msg) c) cs) next es
| sent_some f es :
    (forall c, f c = c \/ exists msg, f c = exec (send u msg) c) ->
    Forall plain_effect es ->
    registry_change u cs next (map f cs) next es.

(* The tile that check_for_win looks for. *)
Definition tile_of (player_num : byte) : Z :=
  if Byte.eqb player_num "2" then Connect4.o else Connect4.x.

(* Four tiles [t] in a line, in a row, in a column or in a diagonal, within
   the rows of the board and its first [width] columns. *)
Inductive four_in_line (t : Z) (g : Connect4.game) (width : nat) : Prop :=
| four_across i j :
    (i < Connect4.rows)%nat -> (j + 3 < width)%nat ->
    Connect4.tile_at g i j = t -> Connect4.tile_at g i (j + 1) = t ->
    Connect4.tile_at g i (j + 2) = t -> Connect4.tile_at g i (j + 3) = t ->
    four_in_line t g width
| four_down i j :
    (i + 3 < Connect4.rows)%nat -> (j < width)%nat ->
    Connect4.tile_at g i j = t -> Connect4.tile_at g (i + 1) j = t ->
    Connect4.tile_at g (i + 2) j = t -> Connect4.tile_at g (i + 3) j = t ->
    four_in_line t g width
| four_rising i j :
    (i + 3 < Connect4.rows)%nat -> (j + 3 < width)%nat ->
    Connect4.tile_at g (i + 3) j = t ->
    Connect4.tile_at g (i + 2) (j + 1) = t ->
    Connect4.tile_at g (i + 1) (j + 2) = t ->
    Connect4.tile_at g i (j + 3) = t ->
    four_in_line t g width
| four_falling i j :
    (i + 3 < Connect4.rows)%nat -> (j + 3 < width)%nat ->
    Connect4.tile_at g i j = t ->
    Connect4.tile_at g (i + 1) (j + 1) = t ->
    Connect4.tile_at g (i + 2) (j + 2) = t ->
    Connect4.tile_at g (i + 3) (j + 3) = t ->
    four_in_line t g width.

(** * Facts about the C library model *)

Module LibcFacts.
Import Libc.

Lemma digit_char_val d : 0 <= d <= 9 -> byte_val (digit_char d) = 48 + d.
Proof.
  intros H.
  assert (E : d = 0 \/ d = 1 \/ d = 2 \/ d = 3 \/ d = 4 \/ d = 5 \/ d = 6
              \/ d = 7 \/ d = 8 \/ d = 9) by lia.
  repeat (destruct E as [E | E]; [subst d; reflexivity |]).
  subst d; reflexivity.
Qed.

Lemma isdigit_digit_char d : 0 <= d <= 9 -> isdigit (digit_char d) = true.
Proof.
  intros H. unfold isdigit. rewrite (digit_char_val d H).
  apply andb_true_intro; split; apply Z.leb_le; lia.
Qed.

Lemma isdigit_not_space c : isdigit c = true -> isspace c = false.
Proof.
  unfold isdigit, isspace. intros H.
  apply andb_prop in H as [H1 H2].
  apply Z.leb_le in H1. apply Z.leb_le in H2.
  apply orb_false_intro.
  - apply Z.eqb_neq. lia.
  - apply andb_false_intro2. apply Z.leb_gt. lia.
Qed.

Lemma decimal_aux_app fuel : forall n acc,
  decimal_aux fuel n acc = decimal_aux fuel n [] ++ acc.
Proof.
  induction fuel as [| fuel IH]; intros n acc; simpl; [reflexivity |].
  destruct (n / 10 =? 0); [reflexivity |].
  rewrite (IH _ (_ :: acc)), (IH _ [_]), <- app_assoc. reflexivity.
Qed.

Lemma decimal_aux_length fuel : forall n j,
  (1 <= j <= fuel)%nat -> 0 <= n < 10 ^ Z.of_nat j ->
  (1 <= List.length (decimal_aux fuel n []) <= j)%nat.
Proof.
  induction fuel as [| fuel IH]; intros n j Hj Hn; [lia |].
  simpl. destruct (Z.eqb_spec (n / 10) 0) as [E | E]; [simpl; lia |].
  rewrite decimal_aux_app, length_app. simpl.
  assert (Hn10 : 10 <= n).
  { destruct (Z_lt_le_dec n 10) as [Hlt | Hle]; [| exact Hle].
    exfalso. apply E. apply Z.div_small. lia. }
  assert (Hj2 : (2 <= j)%nat).
  { destruct j as [| [| j]]; [lia | | lia]. simpl in Hn. lia. }
  specialize (IH (n / 10) (j - 1)%nat).
  assert (Hdiv : 0 <= n / 10 < 10 ^ Z.of_nat (j - 1)).
  { split; [apply Z.div_pos; lia |].
    apply Z.div_lt_upper_bound; [lia |].
    replace (10 * 10 ^ Z.of_nat (j - 1)) with (10 ^ Z.of_nat j); [lia |].
    replace (Z.of_nat j) with (Z.succ (Z.of_nat (j - 1))) by lia.
    rewrite Z.pow_succ_r by lia. reflexivity. }
  specialize (IH ltac:(lia) Hdiv). lia.
Qed.

Lemma decimal_aux_digits fuel : forall n,
  Forall (fun c => isdigit c = true) (decimal_aux fuel n []).
Proof.
  induction fuel as [| fuel IH]; intros n; simpl; [constructor |].
  assert (Hd : isdigit (digit_char (n mod 10)) = true).
  { apply isdigit_digit_char. pose proof (Z.mod_pos_bound n 10). lia. }
  destruct (n / 10 =? 0); [repeat constructor; exact Hd |].
  rewrite decimal_aux_app. apply Forall_app. split; [apply IH |].
  repeat constructor; exact Hd.
Qed.

Lemma digits_value_decimal fuel : forall n,
  0 <= n < 10 ^ Z.of_nat fuel ->
  forall a tail,
    digits_value a (decimal_aux fuel n [] ++ tail) =
    digits_value
      (a * 10 ^ Z.of_nat (List.length (decimal_aux fuel n [])) + n) tail.
Proof.
  induction fuel as [| fuel IH]; intros n Hn a tail.
  - simpl in *. f_equal. lia.
  - cbn [decimal_aux].
    assert (Hm : 0 <= n mod 10 <= 9)
      by (pose proof (Z.mod_pos_bound n 10); lia).
    pose proof (Z.div_mod n 10 ltac:(lia)) as Hdm.
    destruct (Z.eqb_spec (n / 10) 0) as [E | E].
    + cbn [app digits_value List.length].
      rewrite (isdigit_digit_char _ Hm), (digit_char_val _ Hm).
      f_equal. change (Z.of_nat 1) with 1. lia.
    + rewrite decimal_aux_app, <- app_assoc, length_app.
      cbn [app List.length].
      assert (Hdiv : 0 <= n / 10 < 10 ^ Z.of_nat fuel).
      { split; [apply Z.div_pos; lia |].
        apply Z.div_lt_upper_bound; [lia |].
        rewrite Nat2Z.inj_succ, Z.pow_succ_r in Hn by lia. lia. }
      rewrite (IH _ Hdiv). cbn [digits_value].
      rewrite (isdigit_digit_char _ Hm), (digit_char_val _ Hm).
      f_equal.
      replace (Z.of_nat (List.length (decimal_aux fuel (n / 10) []) + 1))
        with (Z.succ (Z.of_nat (List.length (decimal_aux fuel (n / 10) []))))
        by lia.
      rewrite Z.pow_succ_r by lia. lia.
Qed.

Lemma digits_value_stops a tail : stops tail = true -> digits_value a tail = a.
Proof.
  destruct tail as [| c r]; simpl; [reflexivity |].
  intros H. apply negb_true_iff in H. rewrite H. reflexivity.
Qed.

Lemma skip_spaces_pad k s :
  skip_spaces (repeat " "%byte k ++ s) = skip_spaces s.
Proof. induction k as [| k IH]; simpl; [reflexivity | exact IH]. Qed.

Lemma to_int_small z : - 2 ^ 31 <= z < 2 ^ 31 -> to_int z = z.
Proof. intros H. unfold to_int. rewrite Z.mod_small; lia. Qed.

Lemma to_size_t_small z : 0 <= z < 2 ^ 64 -> to_size_t z = z.
Proof. intros H. unfold to_size_t. apply Z.mod_small; lia. Qed.

(* "%4d" of a number of at most four digits is exactly four characters,
   and atoi reads the number back when the character after them is not a
   digit. *)
Lemma sprintf_4d_length n :
  0 <= n <= 9999 -> List.length (sprintf_4d n) = 4%nat.
Proof.
  intros Hn. unfold sprintf_4d.
  destruct (Z.ltb_spec n 0) as [Hneg | _]; [lia |].
  cbn [app]. rewrite Z.abs_eq by lia. unfold decimal.
  pose proof (decimal_aux_length 10 n 4 ltac:(lia) ltac:(simpl; lia)).
  rewrite length_app, repeat_length. lia.
Qed.

Lemma atoi_sprintf_4d n tail :
  0 <= n <= 9999 -> stops tail = true -> atoi (sprintf_4d n ++ tail) = n.
Proof.
  intros Hn Htail. unfold sprintf_4d.
  destruct (Z.ltb_spec n 0) as [Hneg | _]; [lia |].
  cbn [app]. rewrite Z.abs_eq by lia. unfold decimal, atoi.
  rewrite <- app_assoc, skip_spaces_pad.
  pose proof (decimal_aux_length 10 n 4 ltac:(lia) ltac:(simpl; lia)) as Hl.
  pose proof (decimal_aux_digits 10 n) as Hd.
  pose proof (digits_value_decimal 10 n ltac:(simpl; lia) 0 tail) as Hv.
  destruct (decimal_aux 10 n []) as [| c r] eqn:E; [simpl in Hl; lia |].
  inversion Hd as [| ? ? Hc _]; subst.
  cbn [app skip_spaces]. rewrite (isdigit_not_space _ Hc).
  unfold isdigit in Hc. apply andb_prop in Hc as [Hc1 Hc2].
  apply Z.leb_le in Hc1.
  destruct (Z.eqb_spec (byte_val c) 45) as [E1 | _]; [lia |].
  destruct (Z.eqb_spec (byte_val c) 43) as [E2 | _]; [lia |].
  cbn [app] in Hv. rewrite Hv, (digits_value_stops _ _ Htail).
  apply to_int_small. simpl. lia.
Qed.

End LibcFacts.

Import LibcFacts.

(** * The codec *)

Lemma firstn_exact {A} (l r : list A) : firstn (List.length l) (l ++ r) = l.
Proof.
  rewrite firstn_app, Nat.sub_diag, firstn_all. cbn [firstn].
  apply app_nil_r.
Qed.

Lemma skipn_exact {A} (l r : list A) : skipn (List.length l) (l ++ r) = r.
Proof.
  rewrite skipn_app, Nat.sub_diag, skipn_all. reflexivity.
Qed.

Lemma memcpy_front dst src extra n :
  List.length src = n ->
  Libc.memcpy dst 0 (src ++ extra) n = src ++ skipn n dst.
Proof.
  intros H. unfold Libc.memcpy. subst n.
  rewrite firstn_O, firstn_exact. reflexivity.
Qed.

Lemma memcpy_after front rest src n :
  Libc.memcpy (front ++ rest) (List.length front) src n =
  front ++ firstn n src ++ skipn (List.length front + n) (front ++ rest).
Proof. unfold Libc.memcpy. rewrite firstn_exact. reflexivity. Qed.

(* The frame the constructor builds for a length of at most four digits:
   the header, then the first [length] bytes of the body, then what the
   storage held. *)
Lemma net_message_ctor_data storage body length :
  0 <= length <= 9999 ->
  data_ (fst (net_message_ctor storage body length)) =
    Libc.sprintf_4d length ++ firstn (Z.to_nat length) body ++
    skipn (4 + Z.to_nat length) (Libc.sprintf_4d length ++ skipn 4 storage).
Proof.
  intros H. unfold net_message_ctor. cbn [fst data_].
  rewrite (to_int_small length) by lia.
  pose proof (sprintf_4d_length length H) as Hl.
  change (Z.to_nat header_length) with 4%nat.
  rewrite (memcpy_front storage _ [x00] 4 Hl).
  rewrite <- Hl at 2 3. apply memcpy_after.
Qed.

Lemma net_message_ctor_length storage body length :
  body_length_ (fst (net_message_ctor storage body length)) = length.
Proof. reflexivity. Qed.

Lemma net_message_ctor_quiet storage body length :
  length <= max_body_length ->
  snd (net_message_ctor storage body length) = [].
Proof.
  intros H. unfold net_message_ctor. cbn [snd].
  destruct (Z.ltb_spec max_body_length length); [lia | reflexivity].
Qed.

Lemma net_message_ctor_header storage body length :
  0 <= length <= 9999 ->
  firstn 4 (data_ (fst (net_message_ctor storage body length))) =
  Libc.sprintf_4d length.
Proof.
  intros H. rewrite net_message_ctor_data by exact H.
  pose proof (sprintf_4d_length length H) as Hl.
  rewrite <- Hl at 1. apply firstn_exact.
Qed.

Lemma net_message_ctor_body storage body length :
  0 <= length <= 9999 -> length = Z.of_nat (List.length body) ->
  let m := fst (net_message_ctor storage body length) in
  firstn (Z.to_nat (get_body_length m)) (get_body m) = body.
Proof.
  intros H Hb m. unfold get_body, get_body_length. subst m.
  rewrite net_message_ctor_length, net_message_ctor_data by exact H.
  pose proof (sprintf_4d_length length H) as Hl.
  change (Z.to_nat header_length) with 4%nat.
  rewrite <- Hl at 1. rewrite skipn_exact.
  assert (Hn : Z.to_nat length = List.length body) by lia.
  rewrite Hn, firstn_all. apply firstn_exact.
Qed.

(* decode_header reads back the length that the constructor encoded,
   provided the byte that the stack holds after the four header bytes of the
   local array stops atoi. *)
Lemma decode_header_terminated stack storage body length :
  0 <= length <= 9999 -> stops (skipn 4 stack) = true ->
  body_length_
    (fst (decode_header stack (fst (net_message_ctor storage body length))))
  = length.
Proof.
  intros H Hs. unfold decode_header. cbn [fst body_length_].
  change (Z.to_nat header_length) with 4%nat.
  unfold Libc.memcpy at 1. rewrite firstn_O. cbn [app Nat.add].
  rewrite net_message_ctor_header by exact H.
  rewrite atoi_sprintf_4d by assumption.
  apply to_size_t_small. lia.
Qed.

(* The copy constructor copies the header and the whole body. *)
Lemma net_message_copy_faithful storage m :
  0 <= body_length_ m -> body_length_ m + header_length < 2 ^ 64 ->
  (Z.to_nat (body_length_ m + header_length) <= List.length (data_ m))%nat ->
  body_length_ (net_message_copy storage m) = body_length_ m /\
  write_buffer (net_message_copy storage m) = write_buffer m.
Proof.
  intros H0 H1 H2. split; [reflexivity |].
  unfold write_buffer, get_data, get_body_length, net_message_copy.
  cbn [data_ body_length_].
  rewrite to_size_t_small by (unfold header_length in *; lia).
  unfold Libc.memcpy. rewrite firstn_O. cbn [app Nat.add].
  set (n := Z.to_nat (body_length_ m + header_length)) in *.
  assert (Hn : List.length (firstn n (data_ m)) = n)
    by (rewrite length_firstn; lia).
  rewrite <- Hn at 1. apply firstn_exact.
Qed.

(** C2, at a body of 513 bytes: the constructor prints the warning that the
    message "will be trimmed" and trims nothing.  The tracked length is 513,
    the header declares 513 and all 513 bytes are copied behind it, one more
    than the 512-byte body segment of [data_] holds. *)
Theorem net_message_ctor_keeps_513 : forall storage,
  let body := repeat "a"%byte 513 in
  let r := net_message_ctor storage body 513 in
  snd r = [Cerr trimmed_warning] /\
  body_length_ (fst r) = 513 /\
  firstn 4 (data_ (fst r)) = bytes " 513" /\
  firstn 513 (get_body (fst r)) = body.
Proof.
  intros storage body r. subst r body.
  split; [reflexivity |]. split; [reflexivity |].
  rewrite net_message_ctor_header by lia.
  split; [reflexivity |].
  exact (net_message_ctor_body storage (repeat "a"%byte 513) 513
           ltac:(lia) eq_refl).
Qed.

(* With five digits "%4d" overflows its field and only the first four
   characters reach the header: the header of a 10000-byte body declares
   1000. *)
Lemma net_message_ctor_header_10000 storage body :
  let m := fst (net_message_ctor storage body 10000) in
  body_length_ m = 10000 /\ firstn 4 (data_ m) = bytes "1000".
Proof. split; reflexivity. Qed.

(** C3, for the body "hello": the frame's header is "   5", and
    decode_header reads 50 from it when the fifth byte of its uninitialised
    local array holds the character 0, because atoi does not stop after the
    four bytes copied. *)
Theorem decode_header_unterminated : forall storage,
  let m := fst (net_message_ctor storage (bytes "hello") 5) in
  firstn 4 (data_ m) = bytes "   5" /\
  body_length_ (fst (decode_header (bytes "zzzz0") m)) = 50.
Proof.
  intros storage m. subst m. split; [reflexivity |].
  unfold decode_header. cbn [fst body_length_].
  change (Z.to_nat header_length) with 4%nat.
  unfold Libc.memcpy at 1. rewrite firstn_O. cbn [app Nat.add].
  rewrite net_message_ctor_header by lia. reflexivity.
Qed.

(* The round trip of the codec, for a local array whose fifth byte stops
   atoi. *)
Lemma round_trip_terminated stack storage body :
  let length := Z.of_nat (List.length body) in
  length <= max_body_length -> stops (skipn 4 stack) = true ->
  let m := fst (net_message_ctor storage body length) in
  body_length_ (fst (decode_header stack m)) = length /\
  firstn (Z.to_nat (get_body_length m)) (get_body m) = body /\
  snd (net_message_ctor storage body length) = [].
Proof.
  intros length Hl Hs m. unfold max_body_length in Hl. subst m.
  split; [apply decode_header_terminated; [lia | exact Hs] |].
  split; [apply net_message_ctor_body; [lia | reflexivity] |].
  apply net_message_ctor_quiet. exact Hl.
Qed.

(** C4, at the header "9999" (with a zeroed local array, so that atoi stops
    after the four bytes): decode_header prints its warning and keeps 9999
    as the body length, and read_body starts a read of 9999 bytes into the
    512-byte body segment. *)
Theorem oversized_header_not_clamped :
  let c := exec (start zeroed) (tcp_connection_ctor zeroed 0) in
  exists c',
    complete zeroed (read_completes ec_success (bytes "9999")) c =
      Some (c', [Cerr decode_warning]) /\
    get_body_length (read_message_ c') = 9999 /\
    reads (socket_ c') = [read_body_op 9999].
Proof. eexists. split; [reflexivity | split; reflexivity]. Qed.

(* A header with a minus sign decodes to a length near 2^64. *)
Lemma negative_header_wraps m :
  firstn 4 (data_ m) = bytes "-123" ->
  body_length_ (fst (decode_header (repeat x00 5) m)) = 2 ^ 64 - 123.
Proof.
  intros H. unfold decode_header. cbn [fst body_length_].
  change (Z.to_nat header_length) with 4%nat.
  unfold Libc.memcpy. rewrite firstn_O, H. reflexivity.
Qed.

(** C9, assigning the frame of "hello" to the frame of "world": operator=
    copies body_length_ bytes from the start of data_, header included, so
    the last four bytes of the body are not copied and the target's body
    reads "horld". *)
Theorem net_message_assign_short : forall storage,
  let self := fst (net_message_ctor storage (bytes "world") 5) in
  let other := fst (net_message_ctor storage (bytes "hello") 5) in
  let r := net_message_assign self other in
  body_length_ r = 5 /\
  firstn 5 (get_body other) = bytes "hello" /\
  firstn 5 (get_body r) = bytes "horld".
Proof.
  intros storage self other r. subst r self other.
  split; [reflexivity |]. split; [reflexivity |].
  reflexivity.
Qed.

(** * The write loop of a connection *)

Ltac member :=
  cbv beta iota zeta delta
    [exec effects bind ret get modify emit emit_all fst snd
     send do_write handle_write read_header read_body start
     handle_read_header handle_read_body
     start_accept client_disconnect handle_accept send_to send_to_all
     send_to_all_except for_each_connection run_member].

Section WriteLoop.

Variable u : uninitialised.

Lemma send_queue msg c :
  write_messages_ (exec (send u msg) c) =
  write_messages_ c ++ [queued u msg].
Proof.
  member. destruct (write_messages_ c) as [| m q]; reflexivity.
Qed.

Lemma send_effects msg c : effects (send u msg) c = [].
Proof.
  member. destruct (write_messages_ c) as [| m q]; reflexivity.
Qed.

Lemma send_socket msg c :
  socket_ (exec (send u msg) c) =
  match write_messages_ c with
  | [] => start_write (write_buffer (queued u msg)) (socket_ c)
  | _ :: _ => socket_ c
  end.
Proof.
  member. destruct (write_messages_ c) as [| m q]; reflexivity.
Qed.

Lemma send_rest msg c :
  let c' := exec (send u msg) c in
  id_ c' = id_ c /\ valid_ c' = valid_ c /\
  read_message_ c' = read_message_ c.
Proof.
  member. destruct (write_messages_ c) as [| m q]; repeat split.
Qed.

Lemma write_done_ok c buffer rest :
  writes (socket_ c) = buffer :: rest ->
  exists c',
    complete u (write_completes ec_success) c = Some (c', []) /\
    write_messages_ c' = tl (write_messages_ c) /\
    wire_out (socket_ c') = wire_out (socket_ c) ++ [buffer] /\
    reads (socket_ c') = reads (socket_ c) /\
    writes (socket_ c') =
      match tl (write_messages_ c) with
      | next :: _ => rest ++ [write_buffer next]
      | [] => rest
      end.
Proof.
  intros H. unfold complete. rewrite H. member.
  destruct c as [s v r q i]; cbn in *.
  destruct q as [| m [| m' q]]; cbn; eexists; repeat split; reflexivity.
Qed.

Lemma write_done_error c ec buffer rest :
  is_error ec = true ->
  writes (socket_ c) = buffer :: rest ->
  exists c',
    complete u (write_completes ec) c =
      Some (c', [Cerr (write_to_client_failed (id_ c) ec)]) /\
    write_messages_ c' = write_messages_ c /\
    wire_out (socket_ c') = wire_out (socket_ c) /\
    reads (socket_ c') = reads (socket_ c) /\
    writes (socket_ c') = rest.
Proof.
  intros He H. unfold complete. rewrite H. member.
  destruct ec; [discriminate | | |];
    cbn; eexists; repeat split; reflexivity.
Qed.

(* A read completion leaves the write loop alone. *)
Lemma read_done_write_loop c ec transferred c' es :
  complete u (read_completes ec transferred) c = Some (c', es) ->
  write_messages_ c' = write_messages_ c /\
  writes (socket_ c') = writes (socket_ c) /\
  wire_out (socket_ c') = wire_out (socket_ c).
Proof.
  unfold complete.
  destruct (reads (socket_ c)) as [| [| n] rest]; [discriminate | |];
    intros H; injection H as <- _.
  - destruct ec; member; cbn;
      try destruct (decode_header _ _) as [m w]; repeat split.
  - member. cbn. repeat split.
Qed.

Lemma start_is_send c :
  let greeting :=
    fst (net_message_ctor (fresh_message u) first_message
                          (Libc.strlen first_message)) in
  exec (start u) c = exec read_header (exec (send u greeting) c) /\
  effects (start u) c = [].
Proof.
  intros greeting. unfold start.
  assert (E : net_message_ctor (fresh_message u) first_message
                (Libc.strlen first_message) = (greeting, []))
    by reflexivity.
  rewrite E. subst greeting. member.
  destruct (write_messages_ c) as [| m q]; split; reflexivity.
Qed.

Lemma write_loop_step enqueued ev c c' es :
  write_loop_state enqueued c ->
  connection_step u ev c = Some (c', es) ->
  write_loop_state
    (enqueued ++ map (queued u) (sent_messages u [ev])) c'.
Proof.
  intros (done & HE & HW & HF) Hstep.
  assert (Hsend : forall msg c1,
    write_messages_ c1 = write_messages_ (exec (send u msg) c) ->
    socket_ c1 = socket_ (exec (send u msg) c) \/
    (writes (socket_ c1) = writes (socket_ (exec (send u msg) c)) /\
     wire_out (socket_ c1) = wire_out (socket_ (exec (send u msg) c))) ->
    write_loop_state (enqueued ++ [queued u msg]) c1).
  { intros msg c1 Hq Hs. exists done.
    rewrite Hq, send_queue, HE, <- app_assoc.
    assert (Hs' : writes (socket_ c1) = writes (socket_ (exec (send u msg) c))
                  /\ wire_out (socket_ c1) =
                     wire_out (socket_ (exec (send u msg) c))).
    { destruct Hs as [-> | Hs]; [split; reflexivity | exact Hs]. }
    destruct Hs' as [-> ->]. rewrite send_socket.
    split; [reflexivity |].
    destruct (write_messages_ c) as [| m q] eqn:Eq.
    - cbn [start_write wire_out writes app]. split; [exact HW |].
      destruct HF as [-> | (m & q & Hmq & _)]; [| discriminate].
      right. exists (queued u msg), []. split; reflexivity.
    - split; [exact HW |].
      destruct HF as [HF | (m0 & q0 & Hmq & HF)]; [left; exact HF |].
      right. exists m0, (q0 ++ [queued u msg]).
      injection Hmq as -> ->. split; [reflexivity | exact HF]. }
  destruct ev as [| msg | [ec | ec transferred]]; cbn [sent_messages map].
  - (* start *)
    cbn [connection_step] in Hstep. injection Hstep as <- _.
    destruct (start_is_send c) as [-> _].
    apply Hsend; [reflexivity | right; split; reflexivity].
  - (* send *)
    cbn [connection_step] in Hstep. injection Hstep as <- _.
    apply Hsend; [reflexivity | left; reflexivity].
  - (* a write completes *)
    rewrite app_nil_r. cbn [connection_step] in Hstep.
    destruct HF as [HF | (m & q & Hmq & HF)].
    { unfold complete in Hstep. rewrite HF in Hstep. discriminate. }
    destruct (is_error ec) eqn:Eec.
    + destruct (write_done_error c ec _ _ Eec HF)
        as (c1 & Hc1 & Hq & Hw & _ & Hwr).
      rewrite Hc1 in Hstep. injection Hstep as <- _.
      exists done. rewrite Hq, Hw, Hwr. repeat split; auto.
    + destruct ec; try discriminate.
      destruct (write_done_ok c _ _ HF) as (c1 & Hc1 & Hq & Hw & _ & Hwr).
      rewrite Hc1 in Hstep. injection Hstep as <- _.
      exists (done ++ [m]). rewrite Hq, Hw, Hwr, HE, Hmq, HW.
      cbn [tl]. rewrite <- app_assoc, map_app. cbn [app map].
      repeat split.
      destruct q as [| m' q']; [left; reflexivity |].
      right. exists m', q'. split; reflexivity.
  - (* a read completes *)
    rewrite app_nil_r. cbn [connection_step] in Hstep.
    destruct (read_done_write_loop _ _ _ _ _ Hstep) as (Hq & Hwr & Hw).
    exists done. rewrite Hq, Hwr, Hw. repeat split; assumption.
Qed.


Lemma write_loop_initial id :
  write_loop_state [] (tcp_connection_ctor u id).
Proof. exists []. repeat split. left. reflexivity. Qed.

End WriteLoop.



(** * The registry *)

Section ListFacts.

Context {A B : Type}.

Lemma replace_nth_map (f : A -> B) i x y l :
  nth_error l i = Some y -> f x = f y ->
  map f (replace_nth i x l) = map f l.
Proof.
  intros Hn Hf. destruct (nth_error_split l i Hn) as (l1 & l2 & -> & <-).
  unfold replace_nth. rewrite firstn_exact, skipn_exact, !map_app.
  cbn [map]. rewrite Hf. reflexivity.
Qed.

Lemma replace_nth_last (x y : A) l :
  replace_nth (List.length (l ++ [y]) - 1) x (l ++ [y]) = l ++ [x].
Proof.
  rewrite length_app. cbn [List.length].
  replace (List.length l + 1 - 1)%nat with (List.length l) by lia.
  unfold replace_nth. rewrite firstn_exact, skipn_exact. reflexivity.
Qed.

Lemma remove_nth_map (f : A -> B) i l :
  map f (remove_nth i l) = remove_nth i (map f l).
Proof.
  unfold remove_nth. rewrite map_app, firstn_map, skipn_map. reflexivity.
Qed.

Lemma remove_nth_cons i (a : A) l :
  remove_nth (S i) (a :: l) = a :: remove_nth i l.
Proof. reflexivity. Qed.

Lemma remove_nth_nil i : remove_nth i (@nil A) = [].
Proof. unfold remove_nth. rewrite firstn_nil, skipn_nil. reflexivity. Qed.

Lemma remove_nth_Forall (P : A -> Prop) l : forall i,
  Forall P l -> Forall P (remove_nth i l).
Proof.
  induction l as [| a l IH]; intros i H.
  - rewrite remove_nth_nil. constructor.
  - inversion H as [| ? ? Ha Hl]; subst.
    destruct i as [| i]; [exact Hl |].
    rewrite remove_nth_cons. constructor; [exact Ha | apply IH; exact Hl].
Qed.

Lemma remove_nth_sorted (R : A -> A -> Prop) l : forall i,
  StronglySorted R l -> StronglySorted R (remove_nth i l).
Proof.
  induction l as [| a l IH]; intros i H.
  - rewrite remove_nth_nil. constructor.
  - inversion H as [| ? ? Hs Hall]; subst.
    destruct i as [| i]; [exact Hs |].
    rewrite remove_nth_cons. constructor; [apply IH; exact Hs |].
    apply remove_nth_Forall. exact Hall.
Qed.

Lemma sorted_snoc (R : A -> A -> Prop) l x :
  StronglySorted R l -> Forall (fun y => R y x) l ->
  StronglySorted R (l ++ [x]).
Proof.
  induction l as [| a l IH]; intros Hs Hall; cbn [app].
  - repeat constructor.
  - inversion Hs as [| ? ? Hs' Ha]; subst.
    inversion Hall as [| ? ? Hax Hall']; subst.
    constructor; [apply IH; assumption |].
    apply Forall_app. split; [exact Ha | repeat constructor; exact Hax].
Qed.

End ListFacts.

Lemma count_from_snoc count : forall first,
  count_from first (S count) =
  count_from first count ++ [first + Z.of_nat count].
Proof.
  induction count as [| count IH]; intros first.
  - cbn. f_equal. lia.
  - change (count_from first (S (S count)))
      with (first :: count_from (first + 1) (S count)).
    rewrite IH. cbn [count_from app]. do 3 f_equal. lia.
Qed.

Lemma count_from_app n : forall first m,
  count_from first (n + m) =
  count_from first n ++ count_from (first + Z.of_nat n) m.
Proof.
  induction n as [| n IH]; intros first m.
  - cbn [Nat.add count_from app]. f_equal. lia.
  - cbn [Nat.add count_from app]. rewrite IH. do 3 f_equal. lia.
Qed.

Lemma assigned_ids_app es1 es2 :
  assigned_ids (es1 ++ es2) = assigned_ids es1 ++ assigned_ids es2.
Proof.
  induction es1 as [| e es1 IH]; [reflexivity |].
  destruct e as [| | | id [|] |]; cbn [app assigned_ids]; rewrite IH;
    reflexivity.
Qed.

Lemma assigned_ids_plain es : Forall plain_effect es -> assigned_ids es = [].
Proof.
  induction 1 as [| e es He _ IH]; [reflexivity |].
  destruct e; cbn in *; try contradiction; exact IH.
Qed.

Lemma exec_bind_get {St A} (f : St -> M St A) s :
  exec (bind get f) s = exec (f s) s.
Proof.
  unfold exec, bind, get. destruct (f s s) as [[b s2] e2]. reflexivity.
Qed.

Lemma effects_bind_get {St A} (f : St -> M St A) s :
  effects (bind get f) s = effects (f s) s.
Proof.
  unfold effects, bind, get. destruct (f s s) as [[b s2] e2]. reflexivity.
Qed.

Section ConnectionKeys.

Variable u : uninitialised.

Lemma start_key c :
  id_ (exec (start u) c) = id_ c /\ valid_ (exec (start u) c) = valid_ c.
Proof.
  destruct (start_is_send u c) as [-> _].
  destruct (send_rest u
    (fst (net_message_ctor (fresh_message u) first_message
                           (Libc.strlen first_message))) c)
    as (Hi & Hv & _).
  split; [exact Hi | exact Hv].
Qed.

Lemma complete_key k c c' es :
  complete u k c = Some (c', es) ->
  id_ c' = id_ c /\ valid_ c' = valid_ c.
Proof.
  unfold complete. destruct k as [ec | ec transferred].
  - destruct (writes (socket_ c)) as [| buffer rest]; [discriminate |].
    intros H. injection H as <- _. member.
    destruct ec; cbn; try (split; reflexivity).
    destruct (write_messages_ c) as [| m [| m' q]]; split; reflexivity.
  - destruct (reads (socket_ c)) as [| [| n] rest]; [discriminate | |];
      intros H; injection H as <- _; member.
    + destruct ec; cbn;
        try destruct (decode_header _ _) as [m w]; split; reflexivity.
    + cbn. split; reflexivity.
Qed.

(* What a completion handler of a connection leaves for the server: the
   call of disconnect_ alone, or lines on cerr and calls of the
   application's read handler. *)
Lemma complete_effects k c c' es :
  complete u k c = Some (c', es) ->
  (exists ec transferred,
      k = read_completes ec transferred /\ peer_closed ec = true /\
      es = [DisconnectCallback]) \/
  Forall plain_effect es.
Proof.
  unfold complete. destruct k as [ec | ec transferred].
  - destruct (writes (socket_ c)) as [| buffer rest]; [discriminate |].
    intros H. injection H as _ <-. right. member.
    destruct ec; cbn; try (repeat constructor).
    destruct (write_messages_ c) as [| m [| m' q]]; repeat constructor.
  - destruct (reads (socket_ c)) as [| [| n] rest]; [discriminate | |];
      intros H; injection H as _ <-; member.
    + destruct ec; cbn;
        try (left; do 2 eexists; repeat split; reflexivity);
        right; unfold decode_header;
        match goal with
        | |- context [if ?b then _ else _] => destruct b
        end; repeat constructor.
    + right. cbn. repeat constructor.
Qed.

End ConnectionKeys.

Section Registry.

Variable u : uninitialised.

Lemma for_each_keys {B} (f : tcp_connection -> B)
    (body : M tcp_connection unit) :
  (forall c, f (exec body c) = f c) ->
  forall cs, map f (fst (for_each body cs)) = map f cs.
Proof.
  intros Hbody. induction cs as [| c cs IH]; [reflexivity |].
  cbn [for_each]. specialize (Hbody c). unfold exec in Hbody.
  destruct (body c) as [[[] c'] es].
  destruct (for_each body cs) as [cs' es']. cbn in *.
  rewrite Hbody, IH. reflexivity.
Qed.

Lemma for_each_quiet (body : M tcp_connection unit) :
  (forall c, effects body c = []) ->
  forall cs, snd (for_each body cs) = [].
Proof.
  intros Hbody. induction cs as [| c cs IH]; [reflexivity |].
  cbn [for_each]. specialize (Hbody c). unfold effects in Hbody.
  destruct (body c) as [[[] c'] es].
  destruct (for_each body cs) as [cs' es']. cbn in *.
  rewrite Hbody, IH. reflexivity.
Qed.

Lemma send_key msg c : key (exec (send u msg) c) = key c.
Proof.
  destruct (send_rest u msg c) as (Hi & Hv & _).
  unfold key, get_id, valid. rewrite Hi, Hv. reflexivity.
Qed.

Lemma at_connection_keys i (f : M tcp_connection unit) s :
  (forall c, key (exec f c) = key c) ->
  registry_keys (exec (at_connection i f) s) = registry_keys s /\
  next_id_ (exec (at_connection i f) s) = next_id_ s.
Proof.
  intros Hf. unfold exec, at_connection, registry_keys.
  destruct (nth_error (connections_ s) i) as [c |] eqn:Hn;
    [| split; reflexivity].
  specialize (Hf c). unfold exec in Hf.
  destruct (f c) as [[[] c'] es]. cbn in *.
  split; [| reflexivity].
  apply (replace_nth_map key i c' c); assumption.
Qed.

Lemma at_connection_effects i (f : M tcp_connection unit) s :
  (forall c, effects f c = []) -> effects (at_connection i f) s = [].
Proof.
  intros Hf. unfold effects, at_connection.
  destruct (nth_error (connections_ s) i) as [c |]; [| reflexivity].
  specialize (Hf c). unfold effects in Hf.
  destruct (f c) as [[[] c'] es]. exact Hf.
Qed.

Lemma warn_plain storage body length :
  Forall plain_effect (snd (net_message_ctor storage body length)).
Proof.
  unfold net_message_ctor. cbn [snd].
  destruct (max_body_length <? length); repeat constructor.
Qed.

(* An accept that succeeds: the next id goes to a new connection at the
   end of the registry, the connection is started, and the application is
   told the id. *)
Lemma handle_accept_success s :
  exec (handle_accept u ec_success) s =
    {| acceptor_ := {| accepts := S (accepts (acceptor_ s)) |};
       next_id_ := to_size_t (next_id_ s + 1);
       connections_ :=
         connections_ s ++
         [exec (start u) (tcp_connection_ctor u (next_id_ s))] |} /\
  effects (handle_accept u ec_success) s =
    [AcceptHandler (next_id_ s) true].
Proof.
  destruct s as [[pending] next cs]. cbn [acceptor_ accepts next_id_ connections_].
  pose proof (start_is_send u (tcp_connection_ctor u next)) as [_ Hquiet].
  unfold exec, effects in *. unfold handle_accept, at_connection.
  cbv beta iota zeta delta
    [bind ret get modify emit emit_all fst snd is_error negb start_accept
     set_next_id set_connections set_accepts].
  cbn [acceptor_ accepts next_id_ connections_].
  rewrite nth_error_app2
    by (rewrite length_app; cbn [List.length]; lia).
  replace (List.length (cs ++ [tcp_connection_ctor u next])
           - 1 - List.length cs)%nat with O
    by (rewrite length_app; cbn [List.length]; lia).
  cbn [nth_error].
  destruct (start u (tcp_connection_ctor u next)) as [[[] c'] es] eqn:E.
  cbn [fst snd acceptor_ accepts next_id_ connections_] in *.
  subst es. rewrite replace_nth_last.
  split; reflexivity.
Qed.

Lemma handle_accept_failure ec s :
  is_error ec = true ->
  exec (handle_accept u ec) s =
    set_accepts (S (accepts (acceptor_ s))) s /\
  effects (handle_accept u ec) s = [].
Proof. intros H. member. rewrite H. split; reflexivity. Qed.

(* A loop over the registry whose body keeps id and validity flag of the
   connection and has no effect of its own. *)
Lemma broadcast_step warn (body : M tcp_connection unit) s :
  (forall c, key (exec body c) = key c) ->
  (forall c, effects body c = []) ->
  Forall plain_effect warn ->
  next_id_ (exec (emit_all warn ;; for_each_connection body) s) = next_id_ s /\
  (registry_keys (exec (emit_all warn ;; for_each_connection body) s) =
     registry_keys s \/
   exists i,
     registry_keys (exec (emit_all warn ;; for_each_connection body) s) =
     remove_nth i (registry_keys s)) /\
  assigned_ids (effects (emit_all warn ;; for_each_connection body) s) = [].
Proof.
  intros Hkey Hquiet Hw.
  pose proof (for_each_keys key body Hkey (connections_ s)) as Hk.
  pose proof (for_each_quiet body Hquiet (connections_ s)) as Hq.
  unfold exec, effects, bind, emit_all, for_each_connection.
  destruct (for_each body (connections_ s)) as [cs' es'].
  cbn [fst snd] in *. subst es'. rewrite app_nil_r.
  repeat split; [left; exact Hk |].
  apply assigned_ids_plain. exact Hw.
Qed.

Lemma dispatch_plain i es s :
  Forall plain_effect es ->
  exec (dispatch i es) s = s /\ effects (dispatch i es) s = es.
Proof.
  induction 1 as [| e es He _ [IH1 IH2]]; [split; reflexivity |].
  unfold exec, effects in *.
  destruct e; cbn in He; try contradiction;
    cbn [dispatch]; unfold bind, emit;
    destruct (dispatch i es s) as [[[] s'] es']; cbn in *;
    subst; split; reflexivity.
Qed.

Lemma dispatch_disconnect i c s :
  nth_error (connections_ s) i = Some c ->
  exec (dispatch i [DisconnectCallback]) s =
    set_connections (remove_nth i (connections_ s)) s /\
  effects (dispatch i [DisconnectCallback]) s =
    [AcceptHandler (to_size_t (get_id c)) false].
Proof.
  intros Hn. cbn [dispatch]. member. rewrite Hn. split; reflexivity.
Qed.

End Registry.

Section RegistryInvariant.

Variable u : uninitialised.

(* What one event does to the registry and to the id counter. *)
Lemma server_step_registry ev s s' es :
  server_step u ev s = Some (s', es) ->
  match ev with
  | accept_completes ec_success =>
      next_id_ s' = to_size_t (next_id_ s + 1) /\
      registry_keys s' =
        registry_keys s ++ [(to_int (next_id_ s), true)] /\
      es = [AcceptHandler (next_id_ s) true]
  | _ =>
      next_id_ s' = next_id_ s /\
      (registry_keys s' = registry_keys s \/
       exists i, registry_keys s' = remove_nth i (registry_keys s)) /\
      assigned_ids es = []
  end.
Proof.
  destruct ev as [ec | i k | id body length | body length | id body length];
    cbn [server_step].
  - (* accept *)
    destruct (accepts (acceptor_ s)) as [| n] eqn:Hacc; [discriminate |].
    unfold run_member. intros H. injection H as <- <-.
    destruct ec.
    + destruct (handle_accept_success u (set_accepts n s)) as [-> ->].
      cbn [next_id_ set_accepts connections_ acceptor_ accepts].
      unfold registry_keys. cbn [connections_].
      rewrite map_app. cbn [map]. repeat split.
      all: destruct (start_key u (tcp_connection_ctor u (next_id_ s)))
             as [Hi Hv].
      all: unfold key, get_id, valid; rewrite Hi, Hv; reflexivity.
    + destruct (handle_accept_failure u ec_eof (set_accepts n s) eq_refl)
        as [-> ->]. repeat split. left. reflexivity.
    + destruct (handle_accept_failure u ec_connection_reset
                  (set_accepts n s) eq_refl) as [-> ->].
      repeat split. left. reflexivity.
    + destruct (handle_accept_failure u (ec_other value)
                  (set_accepts n s) eq_refl) as [-> ->].
      repeat split. left. reflexivity.
  - (* a connection's operation completes *)
    destruct (nth_error (connections_ s) i) as [c |] eqn:Hn;
      [| discriminate].
    destruct (complete u k c) as [[c' es0] |] eqn:Hc; [| discriminate].
    unfold run_member. intros H. injection H as <- <-.
    destruct (complete_key u _ _ _ _ Hc) as [Hi Hv].
    assert (Hk : key c' = key c)
      by (unfold key, get_id, valid; rewrite Hi, Hv; reflexivity).
    set (s1 := set_connections (replace_nth i c' (connections_ s)) s).
    assert (Hkeys : registry_keys s1 = registry_keys s)
      by (apply (replace_nth_map key i c' c); assumption).
    destruct (complete_effects u _ _ _ _ Hc)
      as [(ec & tr & _ & _ & ->) | Hplain].
    + assert (Hn1 : nth_error (connections_ s1) i = Some c').
      { subst s1. cbn [connections_ set_connections].
        destruct (nth_error_split _ _ Hn) as (l1 & l2 & -> & <-).
        unfold replace_nth. rewrite firstn_exact, skipn_exact.
        rewrite nth_error_app2, Nat.sub_diag by lia. reflexivity. }
      destruct (dispatch_disconnect i c' s1 Hn1) as [-> ->].
      repeat split. right. exists i.
      unfold registry_keys in *. cbn [connections_ set_connections].
      rewrite remove_nth_map. fold (registry_keys s1).
      unfold registry_keys. rewrite Hkeys. reflexivity.
    + destruct (dispatch_plain i es0 s1 Hplain) as [-> ->].
      repeat split; [left; exact Hkeys |].
      apply assigned_ids_plain. exact Hplain.
  - (* send_to *)
    unfold run_member. intros H. injection H as <- <-.
    unfold exec, effects, send_to, bind, get.
    destruct (find_connection id s) as [j |].
    + pose proof (warn_plain (fresh_message u) body length) as Hw.
      destruct (net_message_ctor (fresh_message u) body length)
        as [msg warn].
      cbn [snd] in Hw. unfold emit_all.
      pose proof (at_connection_keys j (send u msg) s (send_key u msg))
        as [Hk Hid].
      pose proof (at_connection_effects j (send u msg) s (send_effects u msg))
        as He.
      unfold exec, effects in Hk, Hid, He.
      destruct (at_connection j (send u msg) s) as [[[] s2] es2].
      cbn [fst snd] in *. subst es2. rewrite app_nil_r. cbn [app].
      repeat split; [exact Hid | left; exact Hk |].
      apply assigned_ids_plain. exact Hw.
    + cbn. repeat split. left. reflexivity.
  - (* send_to_all *)
    unfold run_member. intros H. injection H as <- <-.
    unfold send_to_all.
    pose proof (warn_plain (fresh_message u) body length) as Hw.
    destruct (net_message_ctor (fresh_message u) body length)
      as [msg warn].
    cbn [snd] in Hw.
    apply broadcast_step; [| | exact Hw]; intros c;
      rewrite ?exec_bind_get, ?effects_bind_get;
      destruct (valid c); cbn [negb];
      auto using send_key, send_effects.
  - (* send_to_all_except *)
    unfold run_member. intros H. injection H as <- <-.
    unfold send_to_all_except.
    pose proof (warn_plain (fresh_message u) body length) as Hw.
    destruct (net_message_ctor (fresh_message u) body length)
      as [msg warn].
    cbn [snd] in Hw.
    apply broadcast_step; [| | exact Hw]; intros c;
      rewrite ?exec_bind_get, ?effects_bind_get;
      destruct (to_size_t (get_id c) =? id); [reflexivity | | reflexivity |];
      destruct (valid c); cbn [negb];
      auto using send_key, send_effects.
Qed.

End RegistryInvariant.

Section RegistryRuns.

Variable u : uninitialised.

Lemma accepted_nonneg evs : 0 <= accepted evs.
Proof.
  induction evs as [| ev evs IH]; cbn [accepted]; [lia |].
  destruct ev as [[| | |] | | | |]; lia.
Qed.

Lemma accepted_cons ev evs :
  accepted (ev :: evs) = accepted [ev] + accepted evs.
Proof. destruct ev as [[| | |] | | | |]; cbn [accepted]; lia. Qed.

Lemma registry_ok_step ev s s' es k :
  0 <= k -> k + accepted [ev] <= 2 ^ 31 ->
  registry_ok k s -> server_step u ev s = Some (s', es) ->
  registry_ok (k + accepted [ev]) s' /\
  assigned_ids es = count_from k (Z.to_nat (accepted [ev])).
Proof.
  intros Hk Hbound (Hnext & Hsorted & Hrange) Hstep.
  pose proof (server_step_registry u ev s s' es Hstep) as Hreg.
  assert (Hother :
    next_id_ s' = next_id_ s /\
    (registry_keys s' = registry_keys s \/
     exists i, registry_keys s' = remove_nth i (registry_keys s)) /\
    assigned_ids es = [] ->
    registry_ok (k + 0) s' /\ assigned_ids es = count_from k (Z.to_nat 0)).
  { intros (Hn & Hkeys & Hids). rewrite Z.add_0_r. split; [| exact Hids].
    split; [congruence |].
    destruct Hkeys as [-> | [i ->]]; [split; assumption |].
    split.
    - rewrite remove_nth_map. apply remove_nth_sorted. exact Hsorted.
    - apply remove_nth_Forall. exact Hrange. }
  destruct ev as [[| | |] | | | |]; cbn [accepted] in *;
    try (apply Hother; exact Hreg).
  destruct Hreg as (Hn & Hkeys & ->).
  rewrite Hnext in *. change (1 + 0) with 1 in *.
  rewrite to_int_small in Hkeys by lia.
  split; [| reflexivity].
  split; [rewrite Hn; apply to_size_t_small; lia |].
  rewrite Hkeys, map_app. cbn [map fst]. split.
  - apply sorted_snoc; [exact Hsorted |].
    apply Forall_map. revert Hrange. apply Forall_impl. intros a. lia.
  - apply Forall_app. split.
    + revert Hrange. apply Forall_impl. intros a. lia.
    + repeat constructor; cbn [fst]; lia.
Qed.

Lemma registry_ok_run evs : forall s s' es k,
  0 <= k -> k + accepted evs <= 2 ^ 31 ->
  registry_ok k s -> server_run u evs s = Some (s', es) ->
  registry_ok (k + accepted evs) s' /\
  assigned_ids es = count_from k (Z.to_nat (accepted evs)).
Proof.
  induction evs as [| ev evs IH]; intros s s' es k Hk Hbound Hok Hrun.
  - cbn in *. injection Hrun as <- <-. rewrite Z.add_0_r.
    split; [exact Hok | reflexivity].
  - cbn [server_run] in Hrun.
    destruct (server_step u ev s) as [[s1 es1] |] eqn:Hstep;
      [| discriminate].
    destruct (server_run u evs s1) as [[s2 es2] |] eqn:Hrest;
      [| discriminate].
    injection Hrun as <- <-.
    rewrite accepted_cons in *.
    pose proof (accepted_nonneg evs) as H1.
    pose proof (accepted_nonneg [ev]) as H2.
    destruct (registry_ok_step ev s s1 es1 k Hk ltac:(lia) Hok Hstep)
      as [Hok1 Hids1].
    destruct (IH s1 s2 es2 (k + accepted [ev]) ltac:(lia) ltac:(lia)
                Hok1 Hrest) as [Hok2 Hids2].
    rewrite Z.add_assoc. split; [exact Hok2 |].
    rewrite assigned_ids_app, Hids1, Hids2, Z2Nat.inj_add by lia.
    rewrite count_from_app, Z2Nat.id by lia. reflexivity.
Qed.

Lemma all_valid_step ev s s' es :
  all_valid s -> server_step u ev s = Some (s', es) -> all_valid s'.
Proof.
  unfold all_valid. intros Hv Hstep.
  pose proof (server_step_registry u ev s s' es Hstep) as Hreg.
  assert (Hother :
    next_id_ s' = next_id_ s /\
    (registry_keys s' = registry_keys s \/
     exists i, registry_keys s' = remove_nth i (registry_keys s)) /\
    assigned_ids es = [] ->
    Forall (fun k => snd k = true) (registry_keys s')).
  { intros (_ & [-> | [i ->]] & _); [exact Hv |].
    apply remove_nth_Forall. exact Hv. }
  destruct ev as [[| | |] | | | |]; try (apply Hother; exact Hreg).
  destruct Hreg as (_ & -> & _).
  apply Forall_app. split; [exact Hv | repeat constructor].
Qed.

Lemma all_valid_run evs : forall s s' es,
  all_valid s -> server_run u evs s = Some (s', es) -> all_valid s'.
Proof.
  induction evs as [| ev evs IH]; intros s s' es Hv Hrun.
  - cbn in Hrun. injection Hrun as <- _. exact Hv.
  - cbn [server_run] in Hrun.
    destruct (server_step u ev s) as [[s1 es1] |] eqn:Hstep;
      [| discriminate].
    destruct (server_run u evs s1) as [[s2 es2] |] eqn:Hrest;
      [| discriminate].
    injection Hrun as <- _.
    apply (IH s1 _ es2); [| exact Hrest].
    apply (all_valid_step ev s s1 es1); assumption.
Qed.

Lemma count_from_lower count : forall first,
  Forall (fun x => first <= x) (count_from first count).
Proof.
  induction count as [| count IH]; intros first; cbn [count_from];
    constructor; [lia |].
  specialize (IH (first + 1)). revert IH. apply Forall_impl.
  intros a. lia.
Qed.

Lemma count_from_sorted count : forall first,
  StronglySorted Z.lt (count_from first count).
Proof.
  induction count as [| count IH]; intros first; cbn [count_from];
    constructor; [apply IH |].
  pose proof (count_from_lower count (first + 1)) as H.
  revert H. apply Forall_impl. intros a. lia.
Qed.

Lemma sorted_NoDup l : StronglySorted Z.lt l -> NoDup l.
Proof.
  induction 1 as [| a l _ IH Hall]; constructor; [| exact IH].
  intros Hin. rewrite Forall_forall in Hall.
  specialize (Hall a Hin). lia.
Qed.

Lemma for_each_map (body : M tcp_connection unit) cs :
  fst (for_each body cs) = map (exec body) cs.
Proof.
  induction cs as [| c cs IH]; [reflexivity |].
  cbn [for_each map]. unfold exec at 1.
  destruct (body c) as [[[] c'] es].
  destruct (for_each body cs) as [cs' es']. cbn in *.
  rewrite IH. reflexivity.
Qed.

End RegistryRuns.

Lemma registry_ok_initial : registry_ok 0 net_server_ctor.
Proof. repeat split; constructor. Qed.

Lemma registry_keys_ids s :
  map fst (registry_keys s) = map get_id (connections_ s).
Proof. unfold registry_keys. rewrite map_map. reflexivity. Qed.

Lemma broadcast_connections warn (body : M tcp_connection unit) s :
  connections_ (exec (emit_all warn ;; for_each_connection body) s) =
  map (exec body) (connections_ s).
Proof.
  rewrite <- for_each_map.
  unfold exec at 1. unfold bind, emit_all, for_each_connection.
  destruct (for_each body (connections_ s)) as [cs es]. reflexivity.
Qed.

(* No event of a connection assigns valid_. *)
Lemma valid_step u ev c c' es :
  connection_step u ev c = Some (c', es) -> valid c' = valid c.
Proof.
  intros Hstep. unfold valid.
  destruct ev as [| msg | k]; cbn [connection_step] in Hstep.
  - injection Hstep as <- _. apply start_key.
  - injection Hstep as <- _. apply send_rest.
  - apply (complete_key u k c c' es Hstep).
Qed.

Lemma valid_run u evs : forall c c' es,
  connection_run u evs c = Some (c', es) -> valid c' = valid c.
Proof.
  induction evs as [| ev evs IH]; intros c c' es Hrun.
  - cbn in Hrun. injection Hrun as <- _. reflexivity.
  - cbn [connection_run] in Hrun.
    destruct (connection_step u ev c) as [[c1 es1] |] eqn:Hstep;
      [| discriminate].
    destruct (connection_run u evs c1) as [[c2 es2] |] eqn:Hrest;
      [| discriminate].
    injection Hrun as <- _.
    rewrite (IH _ _ _ Hrest). apply (valid_step u ev c c1 es1 Hstep).
Qed.

(** C10: the constructor of a connection sets the validity flag, and in
    every state that a connection reaches by a run that stays inside data_
    the flag is still set.  Hence every connection in the registry of a
    server, in every state that the server reaches by such a run, is valid,
    and the check of the flag skips no connection: send_to_all, with a
    length of at most max_body_length, sends to every connection of the
    registry, send_to_all_except to every connection whose id is not the
    excluded one. *)
Theorem valid_never_cleared u :
  (forall id, valid (tcp_connection_ctor u id) = true) /\
  (forall id evs c es,
     connection_run u evs (tcp_connection_ctor u id) = Some (c, es) ->
     connection_run_fits u evs (tcp_connection_ctor u id) = true ->
     valid c = true) /\
  (forall evs s es,
     server_run u evs net_server_ctor = Some (s, es) ->
     server_run_fits u evs net_server_ctor = true ->
     Forall (fun c => valid c = true) (connections_ s) /\
     forall body length,
       length_fits length = true ->
       let msg := fst (net_message_ctor (fresh_message u) body length) in
       connections_ (exec (send_to_all u body length) s) =
         map (exec (send u msg)) (connections_ s) /\
       forall id,
         connections_ (exec (send_to_all_except u id body length) s) =
           map (fun c => if to_size_t (get_id c) =? id then c
                         else exec (send u msg) c)
               (connections_ s)).
Proof.
  split; [reflexivity |]. split.
  - intros id evs c es Hrun _.
    rewrite (valid_run u evs _ _ _ Hrun). reflexivity.
  - intros evs s es Hrun _.
    assert (Hvalid : Forall (fun c => valid c = true) (connections_ s)).
    { pose proof (all_valid_run u evs net_server_ctor s es (Forall_nil _) Hrun)
        as Hv.
      unfold all_valid, registry_keys in Hv.
      apply Forall_map in Hv. exact Hv. }
    split; [exact Hvalid |].
    intros body length _ msg. subst msg.
    unfold send_to_all, send_to_all_except.
    destruct (net_message_ctor (fresh_message u) body length) as [msg warn].
    cbn [fst]. rewrite Forall_forall in Hvalid.
    split; [| intros id].
    + rewrite broadcast_connections. apply map_ext_in. intros c Hin.
      rewrite exec_bind_get, (Hvalid c Hin). reflexivity.
    + rewrite broadcast_connections. apply map_ext_in. intros c Hin.
      rewrite exec_bind_get, (Hvalid c Hin).
      destruct (to_size_t (get_id c) =? id); reflexivity.
Qed.

(* Two connections accepted: both are valid and send_to_all reaches both. *)
Lemma valid_never_cleared_witness :
  let ok := accept_completes ec_success in
  exists s es,
    server_run zeroed [ok; ok] net_server_ctor = Some (s, es) /\
    List.length (connections_ s) = 2%nat /\
    Forall (fun c => valid c = true) (connections_ s).
Proof.
  intros ok. eexists. eexists.
  split; [vm_compute; reflexivity |]. split; [reflexivity |].
  eapply (fun s es H =>
            proj1 (proj2 (proj2 (valid_never_cleared zeroed)) [ok; ok] s es H
                     ltac:(vm_compute; reflexivity))).
  vm_compute. reflexivity.
Defined.

(** * The read loops *)

Lemma remove_replace_nth {A} i (x : A) l :
  remove_nth i (replace_nth i x l) = remove_nth i l.
Proof.
  unfold remove_nth, replace_nth.
  destruct (Nat.le_gt_cases (List.length l) i) as [Hge | Hlt].
  - rewrite (skipn_all2 l) by exact Hge. rewrite app_nil_r.
    rewrite firstn_firstn, Nat.min_id.
    rewrite !skipn_all2; [reflexivity | lia |].
    rewrite length_firstn. lia.
  - assert (Hlen : List.length (firstn i l) = i)
      by (rewrite length_firstn; lia).
    destruct (skipn i l) as [| y r] eqn:E.
    { apply (f_equal (@List.length A)) in E.
      rewrite length_skipn in E. cbn in E. lia. }
    rewrite <- Hlen at 1. rewrite firstn_exact. f_equal.
    replace (S i) with (List.length (firstn i l ++ [x]))
      by (rewrite length_app, Hlen; cbn; lia).
    change (firstn i l ++ x :: r) with (firstn i l ++ [x] ++ r).
    rewrite app_assoc, skipn_exact.
    rewrite length_app, Hlen. cbn [List.length].
    replace (i + 1)%nat with (1 + i)%nat by lia.
    rewrite <- skipn_skipn, E. reflexivity.
Qed.

Section ReadLoop.

Variable u : uninitialised.

(* The completion of a header read, as handle_read_header treats it. *)
Lemma header_read_done c rest ec transferred :
  reads (socket_ c) = read_header_op :: rest ->
  exists c',
    complete u (read_completes ec transferred) c =
      Some (c', if peer_closed ec then [DisconnectCallback]
                else snd (decode_header (fresh_header u)
                            (deposit 0 header_length transferred
                               (read_message_ c)))) /\
    reads (socket_ c') =
      (if peer_closed ec then rest
       else rest ++ [read_body_op (get_body_length (read_message_ c'))]).
Proof.
  intros H. unfold complete. rewrite H. member.
  destruct ec; cbn [peer_closed];
    try destruct (decode_header _ _) as [m w];
    cbn; rewrite ?app_nil_r; eexists; split; reflexivity.
Qed.

(* The completion of a body read: handle_read_body does not look at the
   error code. *)
Lemma body_read_done c n rest ec transferred :
  reads (socket_ c) = read_body_op n :: rest ->
  exists c' body length,
    complete u (read_completes ec transferred) c =
      Some (c', [ReadHandler (to_size_t (get_id c)) body length]) /\
    reads (socket_ c') = rest ++ [read_header_op].
Proof.
  intros H. unfold complete. rewrite H. member. cbn.
  do 3 eexists. split; reflexivity.
Qed.

(* A header read that completes with a code other than EOF and
   connection-reset: the header is decoded and the body read started, as
   after a read without error. *)
Lemma header_read_decoded c rest ec transferred :
  reads (socket_ c) = read_header_op :: rest ->
  peer_closed ec = false ->
  let decoded :=
    decode_header (fresh_header u)
      (deposit 0 header_length transferred (read_message_ c)) in
  exists c',
    complete u (read_completes ec transferred) c = Some (c', snd decoded) /\
    complete u (read_completes ec transferred) c =
      complete u (read_completes ec_success transferred) c /\
    read_message_ c' = fst decoded /\
    reads (socket_ c') =
      rest ++ [read_body_op (get_body_length (fst decoded))] /\
    write_messages_ c' = write_messages_ c /\
    writes (socket_ c') = writes (socket_ c).
Proof.
  intros H Hec decoded. subst decoded. unfold complete. rewrite H. member.
  destruct ec; try discriminate;
    destruct (decode_header _ _) as [m w];
    cbn; rewrite ?app_nil_r; eexists; repeat split.
Qed.

End ReadLoop.

(** C5, as the code has it, for the completion of a connection's header
    read.  With EOF or connection-reset the connection is removed from the
    registry, the application's accept handler is called exactly once with
    the connection's id and false, and the connection's handler starts no
    read.  With any other error code the disconnect path is not taken: the
    connection stays in the registry, the application is not told of a
    disconnection, decode_header is run on the bytes received and sets the
    body length, the read of a body of that length is started, and state
    and output are those of the same completion without error. *)
Theorem header_read_error_paths u s i c rest ec transferred :
  nth_error (connections_ s) i = Some c ->
  reads (socket_ c) = read_header_op :: rest ->
  (peer_closed ec = true ->
   server_step u (connection_completes i (read_completes ec transferred)) s
     = Some (set_connections (remove_nth i (connections_ s)) s,
             [AcceptHandler (to_size_t (get_id c)) false]) /\
   exists c',
     complete u (read_completes ec transferred) c =
       Some (c', [DisconnectCallback]) /\
     reads (socket_ c') = rest) /\
  (peer_closed ec = false ->
   let decoded :=
     decode_header (fresh_header u)
       (deposit 0 header_length transferred (read_message_ c)) in
   exists c',
     server_step u (connection_completes i (read_completes ec transferred)) s
       = Some (set_connections (replace_nth i c' (connections_ s)) s,
               snd decoded) /\
     released_ids (snd decoded) = [] /\
     read_message_ c' = fst decoded /\
     reads (socket_ c') =
       rest ++ [read_body_op (get_body_length (fst decoded))] /\
     server_step u (connection_completes i (read_completes ec transferred)) s
       = server_step u
           (connection_completes i (read_completes ec_success transferred)) s).
Proof.
  intros Hn Hr. split; intros Hec.
  - destruct (header_read_done u c rest ec transferred Hr)
      as (c' & Hc & Hreads).
    cbn [server_step]. rewrite Hn, Hc. rewrite Hec in *.
    split; [| exists c'; split; [reflexivity | exact Hreads]].
    set (s1 := set_connections (replace_nth i c' (connections_ s)) s).
    assert (Hn1 : nth_error (connections_ s1) i = Some c').
    { subst s1. cbn [connections_ set_connections].
      destruct (nth_error_split _ _ Hn) as (l1 & l2 & -> & <-).
      unfold replace_nth. rewrite firstn_exact, skipn_exact.
      rewrite nth_error_app2, Nat.sub_diag by lia. reflexivity. }
    unfold run_member.
    destruct (dispatch_disconnect i c' s1 Hn1) as [-> ->].
    subst s1. cbn [connections_ set_connections].
    rewrite remove_replace_nth.
    destruct (complete_key u _ _ _ _ Hc) as [Hi _].
    unfold get_id. rewrite Hi. reflexivity.
  - intros decoded.
    destruct (header_read_decoded u c rest ec transferred Hr Hec)
      as (c' & Hc & Hsame & Hm & Hreads & _).
    fold decoded in Hc, Hm, Hreads.
    assert (Hplain : Forall plain_effect (snd decoded)).
    { subst decoded. unfold decode_header. cbn [snd].
      match goal with
      | |- context [if ?b then _ else _] => destruct b
      end; repeat constructor. }
    exists c'. cbn [server_step]. rewrite Hn, <- Hsame, Hc.
    unfold run_member.
    destruct (dispatch_plain i _
                (set_connections (replace_nth i c' (connections_ s)) s)
                Hplain) as [-> ->].
    split; [reflexivity |]. split; [| repeat split; assumption].
    revert Hplain. generalize (snd decoded).
    induction 1 as [| e es He _ IH]; [reflexivity |].
    destruct e; cbn in He; try contradiction; exact IH.
Qed.

(* The first connection's header read ends with EOF. *)
Lemma header_read_error_paths_witness :
  exists s c,
    server_run zeroed [accept_completes ec_success] net_server_ctor
      = Some (s, [AcceptHandler 0 true]) /\
    nth_error (connections_ s) 0 = Some c /\
    server_step zeroed (connection_completes 0 (read_completes ec_eof [])) s
      = Some (set_connections (remove_nth 0 (connections_ s)) s,
              [AcceptHandler (to_size_t (get_id c)) false]).
Proof.
  eexists. eexists.
  split; [vm_compute; reflexivity |].
  split; [vm_compute; reflexivity |].
  refine (proj1 (proj1 (header_read_error_paths zeroed _ 0 _ [] ec_eof []
                          _ _) _));
    reflexivity.
Defined.

(** C5 fails for the other error codes: after a header read that completes
    with another error the connection is still in the registry, no
    disconnection is reported, and a body read has been started. *)
Lemma other_read_error_continues :
  exists s s' es,
    server_run zeroed [accept_completes ec_success] net_server_ctor
      = Some (s, [AcceptHandler 0 true]) /\
    server_step zeroed
      (connection_completes 0 (read_completes (ec_other 1) [])) s
      = Some (s', es) /\
    released_ids es = [] /\
    map (fun c => reads (socket_ c)) (connections_ s') = [[read_body_op 0]].
Proof.
  do 3 eexists.
  split; [vm_compute; reflexivity |].
  split; [vm_compute; reflexivity |].
  split; reflexivity.
Qed.

(** * Ids past the range of int *)

Lemma server_run_app u evs1 : forall evs2 s,
  server_run u (evs1 ++ evs2) s =
  match server_run u evs1 s with
  | Some (s1, es1) =>
      match server_run u evs2 s1 with
      | Some (s2, es2) => Some (s2, es1 ++ es2)
      | None => None
      end
  | None => None
  end.
Proof.
  induction evs1 as [| ev evs1 IH]; intros evs2 s.
  - cbn. destruct (server_run u evs2 s) as [[s2 es2] |]; reflexivity.
  - cbn [app server_run].
    destruct (server_step u ev s) as [[s1 es1] |]; [| reflexivity].
    rewrite IH. destruct (server_run u evs1 s1) as [[s2 es2] |]; [| reflexivity].
    destruct (server_run u evs2 s2) as [[s3 es3] |]; [| reflexivity].
    rewrite app_assoc. reflexivity.
Qed.

Lemma server_run_fits_app u evs1 : forall evs2 s s1 es1,
  server_run u evs1 s = Some (s1, es1) ->
  server_run_fits u (evs1 ++ evs2) s =
  server_run_fits u evs1 s && server_run_fits u evs2 s1.
Proof.
  induction evs1 as [| ev evs1 IH]; intros evs2 s s1 es1 Hrun.
  - cbn in Hrun. injection Hrun as <- _. reflexivity.
  - cbn [app server_run server_run_fits] in *.
    destruct (server_step u ev s) as [[s2 es2] |]; [| discriminate].
    destruct (server_run u evs1 s2) as [[s3 es3] |] eqn:Hrest;
      [| discriminate].
    injection Hrun as <- _. rewrite (IH evs2 _ _ _ Hrest).
    rewrite !andb_assoc. reflexivity.
Qed.

Lemma remove_nth_last {A} (l : list A) x :
  remove_nth (List.length l) (l ++ [x]) = l.
Proof.
  unfold remove_nth. rewrite firstn_exact.
  rewrite skipn_all2 by (rewrite length_app; cbn [List.length]; lia).
  apply app_nil_r.
Qed.

Lemma forallb_snoc {A} (f : A -> bool) l x :
  forallb f (l ++ [x]) = forallb f l && f x.
Proof. rewrite forallb_app. cbn [forallb]. rewrite andb_true_r. reflexivity. Qed.

Section IntIds.

Variable u : uninitialised.

(* start leaves the header read as the only read of a new connection. *)
Lemma start_reads id :
  reads (socket_ (exec (start u) (tcp_connection_ctor u id))) =
  [read_header_op].
Proof.
  destruct (start_is_send u (tcp_connection_ctor u id)) as [-> _].
  unfold exec at 1. unfold read_header, modify.
  cbn [fst snd set_socket socket_ start_read reads].
  rewrite send_socket. reflexivity.
Qed.

(* A header read that completes with EOF or connection-reset. *)
Lemma disconnect_step s i c rest ec transferred :
  nth_error (connections_ s) i = Some c ->
  reads (socket_ c) = read_header_op :: rest ->
  peer_closed ec = true ->
  server_step u (connection_completes i (read_completes ec transferred)) s
    = Some (set_connections (remove_nth i (connections_ s)) s,
            [AcceptHandler (to_size_t (get_id c)) false]).
Proof.
  intros Hn Hr Hec.
  destruct (header_read_done u c rest ec transferred Hr)
    as (c' & Hc & _).
  cbn [server_step]. rewrite Hn, Hc. rewrite Hec in *.
  set (s1 := set_connections (replace_nth i c' (connections_ s)) s).
  assert (Hn1 : nth_error (connections_ s1) i = Some c').
  { subst s1. cbn [connections_ set_connections].
    destruct (nth_error_split _ _ Hn) as (l1 & l2 & -> & <-).
    unfold replace_nth. rewrite firstn_exact, skipn_exact.
    rewrite nth_error_app2, Nat.sub_diag by lia. reflexivity. }
  unfold run_member.
  destruct (dispatch_disconnect i c' s1 Hn1) as [-> ->].
  subst s1. cbn [connections_ set_connections].
  rewrite remove_replace_nth.
  destruct (complete_key u _ _ _ _ Hc) as [Hi _].
  unfold get_id. rewrite Hi. reflexivity.
Qed.

(* An accept: the counter is a size_t, the id of the connection an int. *)
Lemma accept_step s :
  accepts (acceptor_ s) = 1%nat ->
  0 <= next_id_ s -> next_id_ s + 1 < 2 ^ 64 ->
  let c := exec (start u) (tcp_connection_ctor u (next_id_ s)) in
  server_step u (accept_completes ec_success) s =
    Some ({| acceptor_ := {| accepts := 1 |};
             next_id_ := next_id_ s + 1;
             connections_ := connections_ s ++ [c] |},
          [AcceptHandler (next_id_ s) true]) /\
  get_id c = to_int (next_id_ s) /\
  connection_fits c = true.
Proof.
  intros Hacc Hlo Hhi c. cbn [server_step]. rewrite Hacc. unfold run_member.
  destruct (handle_accept_success u (set_accepts 0 s)) as [-> ->].
  cbn [set_accepts acceptor_ accepts next_id_ connections_].
  rewrite to_size_t_small by lia.
  split; [reflexivity |]. split.
  - destruct (start_key u (tcp_connection_ctor u (next_id_ s))) as [Hi _].
    unfold get_id. subst c. rewrite Hi. reflexivity.
  - unfold connection_fits. subst c. rewrite start_reads. reflexivity.
Qed.

(* A client connects and disconnects at once: the counter goes on, the
   registry is as before. *)
Lemma accept_eof_pair s :
  accepts (acceptor_ s) = 1%nat ->
  0 <= next_id_ s -> next_id_ s + 1 < 2 ^ 64 ->
  server_fits s = true ->
  let gone := connection_completes (List.length (connections_ s))
                (read_completes ec_eof []) in
  server_run u [accept_completes ec_success; gone] s =
    Some (set_next_id (next_id_ s + 1) s,
          [AcceptHandler (next_id_ s) true;
           AcceptHandler (to_size_t (to_int (next_id_ s))) false]) /\
  server_run_fits u [accept_completes ec_success; gone] s = true.
Proof.
  intros Hacc Hlo Hhi Hfits gone.
  destruct (accept_step s Hacc Hlo Hhi) as (Hstep & Hid & Hc).
  set (c := exec (start u) (tcp_connection_ctor u (next_id_ s))) in *.
  set (s1 := {| acceptor_ := {| accepts := 1 |};
                next_id_ := next_id_ s + 1;
                connections_ := connections_ s ++ [c] |}) in *.
  assert (Hn : nth_error (connections_ s1) (List.length (connections_ s)) =
               Some c).
  { subst s1. cbn [connections_].
    rewrite nth_error_app2, Nat.sub_diag by lia. reflexivity. }
  pose proof (disconnect_step s1 _ c [] ec_eof [] Hn (start_reads _) eq_refl)
    as Hgone.
  fold gone in Hgone.
  assert (Hs2 : set_connections (remove_nth (List.length (connections_ s))
                                   (connections_ s1)) s1 =
                set_next_id (next_id_ s + 1) s).
  { subst s1. cbn [connections_ set_connections acceptor_ next_id_].
    rewrite remove_nth_last. destruct s as [[n] next cs].
    cbn in Hacc. subst n. reflexivity. }
  rewrite Hs2 in Hgone.
  cbn [server_run server_run_fits server_event_fits].
  rewrite Hstep, Hgone. rewrite Hid. split; [reflexivity |].
  subst gone. cbn [server_event_fits andb].
  assert (Hf1 : server_fits s1 = true).
  { unfold server_fits. subst s1. cbn [connections_].
    rewrite forallb_snoc, Hc. unfold server_fits in Hfits. rewrite Hfits.
    reflexivity. }
  rewrite Hf1. unfold server_fits at 1. cbn [set_next_id connections_].
  unfold server_fits in Hfits. rewrite Hfits. reflexivity.
Qed.

Lemma accept_eof_pairs k : forall s,
  accepts (acceptor_ s) = 1%nat ->
  0 <= next_id_ s -> next_id_ s + Z.of_nat k < 2 ^ 64 ->
  server_fits s = true ->
  let gone := connection_completes (List.length (connections_ s))
                (read_completes ec_eof []) in
  exists es,
    server_run u (List.concat (repeat [accept_completes ec_success; gone] k)) s =
      Some (set_next_id (next_id_ s + Z.of_nat k) s, es) /\
    server_run_fits u
      (List.concat (repeat [accept_completes ec_success; gone] k)) s = true.
Proof.
  induction k as [| k IH]; intros s Hacc Hlo Hhi Hfits gone.
  - exists []. cbn [repeat List.concat server_run server_run_fits].
    rewrite Z.add_0_r. destruct s. split; reflexivity.
  - destruct (accept_eof_pair s Hacc Hlo ltac:(lia) Hfits) as [Hrun Hf].
    fold gone in Hrun, Hf.
    assert (Hacc1 : accepts (acceptor_ (set_next_id (next_id_ s + 1) s)) =
                    1%nat) by exact Hacc.
    assert (Hlo1 : 0 <= next_id_ (set_next_id (next_id_ s + 1) s))
      by (cbn [set_next_id next_id_]; lia).
    assert (Hhi1 : next_id_ (set_next_id (next_id_ s + 1) s) + Z.of_nat k
                   < 2 ^ 64)
      by (cbn [set_next_id next_id_]; lia).
    assert (Hfits1 : server_fits (set_next_id (next_id_ s + 1) s) = true)
      by exact Hfits.
    destruct (IH _ Hacc1 Hlo1 Hhi1 Hfits1) as (es & Hrest & Hfrest).
    cbn [set_next_id next_id_ connections_] in Hrest, Hfrest.
    fold gone in Hrest, Hfrest.
    cbn [repeat List.concat]. rewrite server_run_app, Hrun, Hrest.
    rewrite (server_run_fits_app u _ _ _ _ _ Hrun), Hf, Hfrest.
    eexists. split; [| reflexivity].
    replace (next_id_ s + Z.of_nat (S k)) with (next_id_ s + 1 + Z.of_nat k)
      by lia.
    reflexivity.
Qed.

(* One connection stays while 2^31 - 1 clients come and go; the client that
   connects then is announced with the id 2^31 and its connection holds the
   id -2^31. *)
Lemma id_wraps n :
  Z.of_nat n = 2 ^ 31 - 1 ->
  let ok := accept_completes ec_success in
  let gone := connection_completes 1 (read_completes ec_eof []) in
  let evs := ok :: List.concat (repeat [ok; gone] n) ++ [ok] in
  exists s es s',
    server_run u evs net_server_ctor =
      Some (s, es ++ [AcceptHandler (2 ^ 31) true]) /\
    server_run_fits u evs net_server_ctor = true /\
    map get_id (connections_ s) = [0; - 2 ^ 31] /\
    server_step u gone s =
      Some (s', [AcceptHandler (2 ^ 64 - 2 ^ 31) false]).
Proof.
  intros Hn ok gone evs.
  destruct (accept_step net_server_ctor eq_refl ltac:(cbn; lia)
              ltac:(cbn; lia)) as (Hstep0 & Hid0 & Hc0).
  change (next_id_ net_server_ctor) with 0 in *.
  change (connections_ net_server_ctor) with (@nil tcp_connection) in *.
  cbn [app] in Hstep0.
  set (c0 := exec (start u) (tcp_connection_ctor u 0)) in *.
  set (s1 := {| acceptor_ := {| accepts := 1 |}; next_id_ := 0 + 1;
                connections_ := [c0] |}) in *.
  assert (Hf1 : server_fits s1 = true).
  { unfold server_fits. subst s1. cbn [connections_ forallb].
    rewrite Hc0. reflexivity. }
  assert (Hlo1 : 0 <= next_id_ s1) by (unfold s1; cbn [next_id_]; lia).
  assert (Hhi1 : next_id_ s1 + Z.of_nat n < 2 ^ 64)
    by (unfold s1; cbn [next_id_]; rewrite Hn; reflexivity).
  destruct (accept_eof_pairs n s1 eq_refl Hlo1 Hhi1 Hf1)
    as (es2 & Hrun2 & Hf2).
  cbn [s1 connections_ List.length next_id_] in Hrun2, Hf2.
  fold gone ok in Hrun2, Hf2. fold s1 in Hrun2, Hf2.
  set (s2 := set_next_id (0 + 1 + Z.of_nat n) s1) in *.
  assert (Hlo2 : 0 <= next_id_ s2)
    by (unfold s2, s1; cbn [set_next_id next_id_]; lia).
  assert (Hhi2 : next_id_ s2 + 1 < 2 ^ 64)
    by (unfold s2, s1; cbn [set_next_id next_id_]; rewrite Hn; reflexivity).
  destruct (accept_step s2 eq_refl Hlo2 Hhi2) as (Hstep3 & Hid3 & Hc3).
  cbn [s2 set_next_id next_id_ connections_ s1 app] in Hstep3, Hid3, Hc3.
  replace (0 + 1 + Z.of_nat n) with (2 ^ 31) in Hstep3, Hid3, Hc3
    by (rewrite Hn; reflexivity).
  set (c3 := exec (start u) (tcp_connection_ctor u (2 ^ 31))) in *.
  set (s3 := {| acceptor_ := {| accepts := 1 |}; next_id_ := 2 ^ 31 + 1;
                connections_ := [c0; c3] |}) in *.
  fold ok in Hstep0, Hstep3.
  pose proof (disconnect_step s3 1 c3 [] ec_eof [] eq_refl (start_reads _)
                eq_refl) as Hgone.
  fold gone in Hgone. rewrite Hid3 in Hgone.
  exists s3, (AcceptHandler 0 true :: es2). eexists.
  split; [| split; [| split]].
  - subst evs. cbn [server_run]. rewrite Hstep0.
    rewrite server_run_app, Hrun2. cbn [server_run]. fold s2.
    rewrite Hstep3. cbn [app]. rewrite ?app_nil_r. reflexivity.
  - subst evs. cbn [server_run_fits]. rewrite Hstep0, Hf1.
    change (server_event_fits ok) with true. cbn [andb].
    rewrite (server_run_fits_app u _ _ _ _ _ Hrun2), Hf2.
    cbn [server_run_fits andb]. fold s2. rewrite Hstep3.
    change (server_event_fits ok) with true. cbn [andb].
    unfold server_fits. subst s3. cbn [connections_ forallb].
    rewrite Hc0, Hc3. reflexivity.
  - subst s3. cbn [connections_ map]. rewrite Hid0, Hid3. reflexivity.
  - exact Hgone.
Qed.

(* The ids announced to the application are the values of the counter:
   0, 1, 2, ... as long as the counter does not pass 2^64. *)
Lemma ids_handed_out evs : forall s s' es,
  0 <= next_id_ s -> next_id_ s + accepted evs < 2 ^ 64 ->
  server_run u evs s = Some (s', es) ->
  next_id_ s' = next_id_ s + accepted evs /\
  assigned_ids es = count_from (next_id_ s) (Z.to_nat (accepted evs)).
Proof.
  induction evs as [| ev evs IH]; intros s s' es Hlo Hhi Hrun.
  - cbn in *. injection Hrun as <- <-. split; [lia | reflexivity].
  - cbn [server_run] in Hrun.
    destruct (server_step u ev s) as [[s1 es1] |] eqn:Hstep; [| discriminate].
    destruct (server_run u evs s1) as [[s2 es2] |] eqn:Hrest;
      [| discriminate].
    injection Hrun as <- <-.
    pose proof (server_step_registry u ev s s1 es1 Hstep) as Hreg.
    pose proof (accepted_nonneg evs) as Hpos.
    rewrite accepted_cons in Hhi |- *. rewrite assigned_ids_app.
    assert (Hother :
      next_id_ s1 = next_id_ s /\
      (registry_keys s1 = registry_keys s \/
       exists i, registry_keys s1 = remove_nth i (registry_keys s)) /\
      assigned_ids es1 = [] ->
      accepted [ev] = 0 ->
      next_id_ s2 = next_id_ s + (accepted [ev] + accepted evs) /\
      assigned_ids es1 ++ assigned_ids es2 =
        count_from (next_id_ s)
          (Z.to_nat (accepted [ev] + accepted evs))).
    { intros (Hn & _ & Hids) H0. rewrite H0 in *. rewrite Hids.
      destruct (IH s1 s2 es2) as [Hn2 Hids2];
        [rewrite Hn; lia | rewrite Hn; lia | exact Hrest |].
      rewrite Hn in Hn2, Hids2. cbn [app Z.add]. split; assumption. }
    destruct ev as [[| | |] | | | |];
      try (apply Hother; [exact Hreg | reflexivity]).
    destruct Hreg as (Hn & _ & ->).
    change (accepted [accept_completes ec_success]) with 1 in *.
    rewrite to_size_t_small in Hn by lia.
    destruct (IH s1 s2 es2) as [Hn2 Hids2];
      [rewrite Hn; lia | rewrite Hn; lia | exact Hrest |].
    rewrite Hn in Hn2, Hids2. split; [lia |].
    rewrite Hids2. replace (Z.to_nat (1 + accepted evs))
      with (S (Z.to_nat (accepted evs))) by lia.
    reflexivity.
Qed.

End IntIds.

(** C8 fails in the connection: the counter next_id_ is a size_t and the id
    announced to the application is its value, but the connection keeps the
    id in an int.  One connection stays open while 2^31 - 1 clients connect
    and disconnect, and one more client connects; the run stays inside
    data_.  The last client is announced with the id 2^31, its connection
    holds the id -2^31, the registry holds the ids 0 and -2^31 and is not in
    ascending order of id, and the disconnection of that client is
    announced with the id 2^64 - 2^31, which was never assigned. *)
Theorem id_wraps_past_int_max :
  let ok := accept_completes ec_success in
  let gone := connection_completes 1 (read_completes ec_eof []) in
  let evs := ok :: List.concat (repeat [ok; gone] (Z.to_nat (2 ^ 31 - 1))) ++ [ok] in
  exists s es s',
    server_run zeroed evs net_server_ctor =
      Some (s, es ++ [AcceptHandler (2 ^ 31) true]) /\
    server_run_fits zeroed evs net_server_ctor = true /\
    map get_id (connections_ s) = [0; - 2 ^ 31] /\
    ~ StronglySorted Z.lt (map get_id (connections_ s)) /\
    server_step zeroed gone s =
      Some (s', [AcceptHandler (2 ^ 64 - 2 ^ 31) false]).
Proof.
  intros ok gone evs.
  destruct (id_wraps zeroed (Z.to_nat (2 ^ 31 - 1)))
    as (s & es & s' & Hrun & Hfits & Hids & Hgone).
  { apply Z2Nat.id. discriminate. }
  exists s, es, s'.
  split; [exact Hrun |]. split; [exact Hfits |]. split; [exact Hids |].
  split; [| exact Hgone].
  rewrite Hids. intros Hsorted.
  inversion Hsorted as [| ? ? _ Hall]; subst.
  inversion Hall as [| ? ? Hlt _]; subst.
  vm_compute in Hlt. discriminate.
Qed.

(** * The client *)

Lemma deliveries_app es1 es2 :
  deliveries (es1 ++ es2) = (deliveries es1 + deliveries es2)%nat.
Proof.
  induction es1 as [| e es1 IH]; [reflexivity |].
  destruct e; cbn [app deliveries]; rewrite IH; reflexivity.
Qed.

Section ClientReadLoop.

Variable u : uninitialised.

(* handle_read_header of the client: whatever the error code, the header
   is decoded and the body read is started. *)
Lemma client_header_read_done c rest ec transferred :
  reads (Client.socket_ c) = read_header_op :: rest ->
  exists c' es,
    Client.complete u (read_completes ec transferred) c = Some (c', es) /\
    deliveries es = O /\
    reads (Client.socket_ c') =
      rest ++ [read_body_op (get_body_length (Client.read_message_ c'))].
Proof.
  intros H. unfold Client.complete. rewrite H.
  unfold exec, effects, Client.handle_read_header, Client.read_body,
    bind, get, modify, emit_all, decode_header.
  cbn. do 2 eexists. split; [reflexivity |]. split; [| reflexivity].
  match goal with
  | |- context [if ?b then _ else _] => destruct b
  end; reflexivity.
Qed.

(* handle_read_body of the client: whatever the error code, the message is
   handed to the read handler and the next header read is started. *)
Lemma client_body_read_done c n rest ec transferred :
  reads (Client.socket_ c) = read_body_op n :: rest ->
  exists c' body length,
    Client.complete u (read_completes ec transferred) c =
      Some (c', [ClientReadHandler body length]) /\
    reads (Client.socket_ c') = rest ++ [read_header_op].
Proof.
  intros H. unfold Client.complete. rewrite H.
  unfold exec, effects, Client.handle_read_body, Client.read_header,
    bind, get, modify, emit.
  cbn. do 3 eexists. split; reflexivity.
Qed.

Lemma client_read_loop_goes_on ks : forall c,
  (reads (Client.socket_ c) = [read_header_op] ->
   exists c' es,
     Client.read_loop u ks c = Some (c', es) /\
     List.length (reads (Client.socket_ c')) = 1%nat /\
     deliveries es = Nat.div2 (List.length ks)) /\
  (forall n, reads (Client.socket_ c) = [read_body_op n] ->
   exists c' es,
     Client.read_loop u ks c = Some (c', es) /\
     List.length (reads (Client.socket_ c')) = 1%nat /\
     deliveries es = Nat.div2 (S (List.length ks))).
Proof.
  induction ks as [| [ec transferred] ks IH]; intros c.
  - split; [intros H | intros n H]; exists c, []; cbn; rewrite H;
      repeat split.
  - split; [intros H | intros n H]; cbn [Client.read_loop List.length].
    + destruct (client_header_read_done c [] ec transferred H)
        as (c1 & es1 & -> & Hd & Hr).
      destruct (proj2 (IH c1) _ Hr) as (c2 & es2 & -> & Hlen & Hd2).
      exists c2, (es1 ++ es2). rewrite deliveries_app, Hd, Hd2.
      repeat split. exact Hlen.
    + destruct (client_body_read_done c n [] ec transferred H)
        as (c1 & body & length & -> & Hr).
      destruct (proj1 (IH c1) Hr) as (c2 & es2 & -> & Hlen & Hd2).
      exists c2, ([ClientReadHandler body length] ++ es2).
      cbn [app deliveries]. rewrite Hd2. repeat split. exact Hlen.
Qed.

End ClientReadLoop.

(** C6, for every sequence of read completions of a client, whatever their
    error codes: each completion is handled, a read is outstanding
    afterwards, and the read handler of the application has been called
    once for every two completions.  The read loop does not end on an
    error. *)
Theorem client_read_loop_never_stops u ks :
  exists c es,
    Client.read_loop u ks (Client.net_client_ctor u) = Some (c, es) /\
    List.length (reads (Client.socket_ c)) = 1%nat /\
    deliveries es = Nat.div2 (List.length ks).
Proof.
  apply (client_read_loop_goes_on u ks (Client.net_client_ctor u)).
  reflexivity.
Qed.

(* The server has gone: the header read and the body read end with EOF, the
   client hands a message of length 0 to the application and reads on. *)
Lemma client_reads_on_after_eof :
  exists c,
    Client.read_loop zeroed [(ec_eof, []); (ec_eof, [])]
      (Client.net_client_ctor zeroed) =
      Some (c, [ClientReadHandler [] 0]) /\
    reads (Client.socket_ c) = [read_header_op].
Proof. eexists. split; reflexivity. Qed.

(** * The search in the registry *)

Section LowerBoundFacts.

Context {A : Type}.
Variable comp : A -> bool.
Variable l : list A.

(* [l] is partitioned at [k]: [comp] holds before position [k] and not
   from it on. *)
Variable k : nat.
Hypothesis partitioned :
  forall i x, nth_error l i = Some x -> comp x = (i <? k)%nat.
Hypothesis k_in_range : (k <= List.length l)%nat.

Lemma lower_bound_loop_partition fuel : forall first len,
  (len <= fuel)%nat -> (first + len <= List.length l)%nat ->
  (first <= k <= first + len)%nat ->
  lower_bound_loop comp l fuel first len = k.
Proof.
  induction fuel as [| fuel IH]; intros first len Hfuel Hlen Hk.
  - cbn. lia.
  - cbn [lower_bound_loop].
    destruct (Nat.eqb_spec len 0) as [-> | Hpos]; [lia |].
    pose proof (Nat.lt_div2 len ltac:(lia)) as Hhalf.
    set (half := Nat.div2 len) in *. clearbody half.
    destruct (nth_error l (first + half)) as [x |] eqn:Hx.
    + rewrite (partitioned _ _ Hx).
      destruct (Nat.ltb_spec (first + half) k); apply IH; lia.
    + apply nth_error_None in Hx. lia.
Qed.

Lemma lower_bound_partition : lower_bound comp l = k.
Proof.
  unfold lower_bound. apply lower_bound_loop_partition; lia.
Qed.

End LowerBoundFacts.

Lemma sorted_nth (l : list Z) : forall i j a b,
  StronglySorted Z.lt l ->
  nth_error l i = Some a -> nth_error l j = Some b ->
  (i < j)%nat -> a < b.
Proof.
  induction l as [| x l IH]; intros i j a b Hs Hi Hj Hlt;
    [destruct i; discriminate |].
  inversion Hs as [| ? ? Hs' Hall]; subst.
  destruct j as [| j]; [lia |].
  destruct i as [| i]; cbn in Hi, Hj.
  - injection Hi as <-. rewrite Forall_forall in Hall.
    apply Hall. apply (nth_error_In _ _ Hj).
  - apply (IH i j); [assumption .. | lia].
Qed.

Section FindConnection.

Variable u : uninitialised.

(* In a registry in ascending order of ids that fit an int and are not
   negative, find_connection of the id of the connection at position [i]
   returns that position. *)
Lemma find_connection_present s i c :
  StronglySorted Z.lt (map get_id (connections_ s)) ->
  Forall (fun c => 0 <= get_id c < 2 ^ 31) (connections_ s) ->
  nth_error (connections_ s) i = Some c ->
  find_connection (get_id c) s = Some i.
Proof.
  intros Hsorted Hrange Hn. unfold find_connection.
  assert (Hi : (i < List.length (connections_ s))%nat)
    by (apply nth_error_Some; congruence).
  rewrite (lower_bound_partition _ (connections_ s) i).
  - destruct (Nat.eqb_spec i (List.length (connections_ s))); [lia |].
    reflexivity.
  - intros j x Hj.
    rewrite Forall_forall in Hrange.
    pose proof (Hrange _ (nth_error_In _ _ Hj)) as Hx.
    rewrite to_size_t_small by lia.
    pose proof (map_nth_error get_id _ _ Hn) as Hn'.
    pose proof (map_nth_error get_id _ _ Hj) as Hj'.
    destruct (Nat.ltb_spec j i) as [Hlt | Hge].
    + apply Z.ltb_lt. apply (sorted_nth _ j i _ _ Hsorted Hj' Hn' Hlt).
    + apply Z.ltb_ge. destruct (Nat.eq_dec j i) as [-> | Hne].
      * rewrite Hn in Hj. injection Hj as <-. lia.
      * pose proof (sorted_nth _ i j _ _ Hsorted Hn' Hj' ltac:(lia)). lia.
  - lia.
Qed.

(* send_to of the id of a connection in such a registry: the frame is put
   into the queue of that connection, and no other connection changes. *)
Lemma send_to_present s i c body length :
  StronglySorted Z.lt (map get_id (connections_ s)) ->
  Forall (fun c => 0 <= get_id c < 2 ^ 31) (connections_ s) ->
  nth_error (connections_ s) i = Some c ->
  let msg := fst (net_message_ctor (fresh_message u) body length) in
  connections_ (exec (send_to u (get_id c) body length) s) =
    replace_nth i (exec (send u msg) c) (connections_ s) /\
  write_messages_ (exec (send u msg) c) =
    write_messages_ c ++ [queued u msg] /\
  effects (send_to u (get_id c) body length) s =
    snd (net_message_ctor (fresh_message u) body length).
Proof.
  intros Hsorted Hrange Hn msg. subst msg.
  split; [| split; [apply send_queue |]].
  - unfold exec, send_to, bind, get.
    rewrite (find_connection_present s i c Hsorted Hrange Hn).
    destruct (net_message_ctor (fresh_message u) body length)
      as [msg warn].
    cbn [fst]. unfold emit_all, at_connection. rewrite Hn. unfold exec.
    destruct (send u msg c) as [[[] c'] es]. reflexivity.
  - unfold effects, send_to, bind, get.
    rewrite (find_connection_present s i c Hsorted Hrange Hn).
    destruct (net_message_ctor (fresh_message u) body length)
      as [msg warn].
    cbn [snd]. unfold emit_all, at_connection. rewrite Hn.
    pose proof (send_effects u msg c) as He. unfold effects in He.
    destruct (send u msg c) as [[[] c'] es]. cbn in *. subst es.
    rewrite !app_nil_r. reflexivity.
Qed.

(* An id above all ids of the registry is reported as not found, and
   nothing is written. *)
Lemma send_to_above s id body length :
  Forall (fun c => 0 <= get_id c < id) (connections_ s) -> id < 2 ^ 64 ->
  exec (send_to u id body length) s = s /\
  effects (send_to u id body length) s = [Cerr (client_not_found id)].
Proof.
  intros Hall Hid.
  assert (Hfind : find_connection id s = None).
  { unfold find_connection.
    rewrite (lower_bound_partition _ (connections_ s)
               (List.length (connections_ s))).
    - rewrite Nat.eqb_refl. reflexivity.
    - intros j x Hj. rewrite Forall_forall in Hall.
      pose proof (Hall _ (nth_error_In _ _ Hj)) as Hx.
      rewrite to_size_t_small by lia.
      assert (Hlt : (j < List.length (connections_ s))%nat)
        by (apply nth_error_Some; congruence).
      destruct (Nat.ltb_spec j (List.length (connections_ s))); [| lia].
      apply Z.ltb_lt. lia.
    - lia. }
  unfold exec, effects, send_to, bind, get. rewrite Hfind.
  split; reflexivity.
Qed.

End FindConnection.

(** * send_to *)

(** C1, in a registry that holds the connections 0 and 2 (three accepted,
    the one with id 1 disconnected): find_connection 1 returns the
    connection with id 2, the first whose id is not below 1, and send_to 1
    puts its frame into the queue of that connection; no "client not found"
    is printed. *)
Theorem send_to_absent_id_writes :
  let ok := accept_completes ec_success in
  exists s s',
    server_run zeroed
      [ok; ok; ok; connection_completes 1 (read_completes ec_eof [])]
      net_server_ctor =
      Some (s, [AcceptHandler 0 true; AcceptHandler 1 true;
                AcceptHandler 2 true; AcceptHandler 1 false]) /\
    map get_id (connections_ s) = [0; 2] /\
    find_connection 1 s = Some 1%nat /\
    server_step zeroed (send_to_called 1 (bytes "hi") 2) s = Some (s', []) /\
    map (fun c => map write_buffer (write_messages_ c)) (connections_ s') =
      [[bytes "  17server: connected"];
       [bytes "  17server: connected"; bytes "   2hi"]].
Proof.
  intros ok. eexists. eexists.
  split; [vm_compute; reflexivity |].
  split; [reflexivity |]. split; [reflexivity |].
  split; [vm_compute; reflexivity |]. reflexivity.
Qed.

(** * More on the codec *)

Lemma terminated_stops stack :
  terminated stack = true -> stops (skipn 4 stack) = true.
Proof.
  unfold terminated, stops.
  destruct (skipn 4 stack) as [| c r]; [discriminate |].
  intros H. apply Z.eqb_eq in H. unfold Libc.isdigit. rewrite H. reflexivity.
Qed.



(** X2: the constructor writes inside the 516-byte array exactly when the
    length is at most 512.  For a body of [length] bytes, [data_] ends up
    with max(516, 4 + length) bytes, and the bytes of the storage behind
    header and body are left as they were. *)
Theorem net_message_ctor_extent storage body length :
  List.length storage = 516%nat ->
  Z.of_nat (List.length body) = length ->
  length <= 9999 ->
  let m := fst (net_message_ctor storage body length) in
  List.length (data_ m) = Nat.max 516 (4 + Z.to_nat length) /\
  skipn (4 + Z.to_nat length) (data_ m) = skipn (4 + Z.to_nat length) storage.
Proof.
  intros Hs Hb Hl m. subst m.
  rewrite net_message_ctor_data by lia.
  pose proof (sprintf_4d_length length ltac:(lia)) as Hh.
  assert (Hn : Z.to_nat length = List.length body) by lia.
  rewrite Hn, firstn_all.
  assert (Htail : skipn (4 + List.length body)
                    (Libc.sprintf_4d length ++ skipn 4 storage) =
                  skipn (4 + List.length body) storage).
  { rewrite (Nat.add_comm 4), <- !skipn_skipn. f_equal.
    rewrite <- Hh at 1. apply skipn_exact. }
  rewrite Htail. split.
  - rewrite !length_app, length_skipn, Hh, Hs. lia.
  - rewrite app_assoc.
    replace (4 + List.length body)%nat
      with (List.length (Libc.sprintf_4d length ++ body)) at 1
      by (rewrite length_app, Hh; reflexivity).
    apply skipn_exact.
Qed.

Lemma net_message_ctor_extent_witness :
  let m := fst (net_message_ctor (repeat x00 516) (bytes "hello") 5) in
  List.length (data_ m) = 516%nat /\
  skipn 9 (data_ m) = repeat x00 507.
Proof.
  exact (net_message_ctor_extent (repeat x00 516) (bytes "hello") 5
           eq_refl eq_refl ltac:(discriminate)).
Defined.

(** X3: the copy constructor makes a full copy.  For a message whose data_
    holds its header and body, the copy has the same body length, the same
    four header bytes and the same body, whatever the storage of the copy
    held before. *)
Theorem net_message_copy_equal storage m :
  0 <= body_length_ m -> body_length_ m + header_length < 2 ^ 64 ->
  (Z.to_nat (body_length_ m + header_length) <= List.length (data_ m))%nat ->
  let copy := net_message_copy storage m in
  get_body_length copy = get_body_length m /\
  firstn 4 (get_data copy) = firstn 4 (get_data m) /\
  firstn (Z.to_nat (get_body_length m)) (get_body copy) =
  firstn (Z.to_nat (get_body_length m)) (get_body m).
Proof.
  intros H0 H1 H2 copy.
  destruct (net_message_copy_faithful storage m H0 H1 H2) as [Hlen Hbuf].
  split; [exact Hlen |].
  unfold write_buffer in Hbuf. fold copy in Hbuf, Hlen.
  unfold get_body_length in *. rewrite Hlen in Hbuf.
  rewrite to_size_t_small in Hbuf by (unfold header_length in *; lia).
  unfold header_length in *.
  set (n := Z.to_nat (body_length_ m)) in *.
  replace (Z.to_nat (body_length_ m + 4)) with (4 + n)%nat in * by lia.
  split.
  - apply (f_equal (firstn 4)) in Hbuf.
    rewrite !firstn_firstn in Hbuf.
    replace (Nat.min 4 (4 + n)) with 4%nat in Hbuf by lia. exact Hbuf.
  - apply (f_equal (skipn 4)) in Hbuf.
    rewrite !skipn_firstn_comm in Hbuf.
    replace (4 + n - 4)%nat with n in Hbuf by lia. exact Hbuf.
Qed.

Lemma net_message_copy_equal_witness :
  let m := fst (net_message_ctor (repeat x00 516) (bytes "hello") 5) in
  let copy := net_message_copy (repeat "z"%byte 516) m in
  get_body_length copy = 5 /\
  firstn 4 (get_data copy) = bytes "   5" /\
  firstn 5 (get_body copy) = bytes "hello".
Proof.
  exact (net_message_copy_equal (repeat "z"%byte 516)
           (fst (net_message_ctor (repeat x00 516) (bytes "hello") 5))
           ltac:(discriminate) eq_refl ltac:(vm_compute; lia)).
Defined.

Section DecodeBound.

(* A byte [nul] of value 0 ends the digits, is no space and no sign. *)
Variable nul : byte.
Hypothesis nul_val : byte_val nul = 0.

Lemma digits_value_bound l : forall a t,
  0 <= a ->
  a <= Libc.digits_value a (l ++ nul :: t) < (a + 1) * 10 ^ Z.of_nat (List.length l).
Proof.
  induction l as [| c l IH]; intros a t Ha.
  - cbn [app Libc.digits_value List.length]. unfold Libc.isdigit.
    rewrite nul_val. cbn. lia.
  - cbn [app Libc.digits_value List.length].
    rewrite Nat2Z.inj_succ, Z.pow_succ_r by lia.
    assert (Hpow : 0 < 10 ^ Z.of_nat (List.length l))
      by (apply Z.pow_pos_nonneg; lia).
    destruct (Libc.isdigit c) eqn:Hc.
    + unfold Libc.isdigit in Hc. apply andb_prop in Hc as [H1 H2].
      apply Z.leb_le in H1. apply Z.leb_le in H2.
      specialize (IH (a * 10 + (byte_val c - 48)) t ltac:(lia)). nia.
    + nia.
Qed.

Lemma skip_spaces_terminated h : forall t,
  exists l',
    Libc.skip_spaces (h ++ nul :: t) = l' ++ nul :: t /\
    (List.length l' <= List.length h)%nat.
Proof.
  induction h as [| c h IH]; intros t.
  - exists []. cbn [app Libc.skip_spaces]. unfold Libc.isspace.
    rewrite nul_val. cbn. split; [reflexivity | lia].
  - cbn [app Libc.skip_spaces]. destruct (Libc.isspace c).
    + destruct (IH t) as (l' & -> & Hl). exists l'.
      split; [reflexivity | cbn; lia].
    + exists (c :: h). split; [reflexivity | lia].
Qed.

(* atoi of at most four bytes in front of a NUL *)
Lemma atoi_four_bytes h t :
  (List.length h <= 4)%nat ->
  - 999 <= Libc.atoi (h ++ nul :: t) <= 9999.
Proof.
  intros Hh. unfold Libc.atoi.
  assert (Hint : forall v, - 999 <= v <= 9999 -> - 999 <= to_int v <= 9999).
  { intros v Hv. rewrite to_int_small; [exact Hv |].
    change (2 ^ 31) with 2147483648. lia. }
  destruct (skip_spaces_terminated h t) as (l' & -> & Hl).
  destruct l' as [| c r]; cbn [app].
  - rewrite nul_val. cbn [Z.eqb].
    pose proof (digits_value_bound [] 0 t ltac:(lia)) as Hb.
    cbn [app List.length] in Hb. change (10 ^ Z.of_nat 0) with 1 in Hb.
    apply Hint. lia.
  - cbn [List.length] in Hl.
    assert (Hpow : 10 ^ Z.of_nat (List.length r) <= 1000).
    { change 1000 with (10 ^ 3). apply Z.pow_le_mono_r; lia. }
    pose proof (digits_value_bound r 0 t ltac:(lia)) as Hr.
    pose proof (digits_value_bound (c :: r) 0 t ltac:(lia)) as Hcr.
    cbn [app List.length] in Hcr.
    rewrite Nat2Z.inj_succ, Z.pow_succ_r in Hcr by lia.
    destruct (byte_val c =? 45); [apply Hint; lia |].
    destruct (byte_val c =? 43); apply Hint; lia.
Qed.

End DecodeBound.

(** X4: how large a decoded length can be.  When the byte after the four
    header bytes in decode_header's local array is NUL, every header decodes
    to a length of at most 9999, or, with a minus sign in it, to one of the
    999 values below 2^64. *)
Theorem decode_header_bound stack m :
  terminated stack = true ->
  let length := get_body_length (fst (decode_header stack m)) in
  0 <= length <= 9999 \/ 2 ^ 64 - 999 <= length < 2 ^ 64.
Proof.
  intros Ht length. subst length. unfold terminated in Ht.
  unfold decode_header, get_body_length. cbn [fst body_length_].
  unfold Libc.memcpy. rewrite firstn_O. cbn [app Nat.add].
  destruct (skipn (Z.to_nat header_length) stack) as [| nul t] eqn:E;
    [change (Z.to_nat header_length) with 4%nat in E; rewrite E in Ht;
     discriminate |].
  change (Z.to_nat header_length) with 4%nat in E. rewrite E in Ht.
  apply Z.eqb_eq in Ht.
  pose proof (atoi_four_bytes nul Ht
                (firstn (Z.to_nat header_length) (data_ m)) t
                (firstn_le_length _ _)) as Hb.
  unfold to_size_t.
  set (v := Libc.atoi _) in *. clearbody v.
  change (2 ^ 64) with 18446744073709551616.
  destruct (Z_lt_le_dec v 0) as [Hneg | Hpos].
  - right.
    rewrite <- (Z_mod_plus_full v 1 18446744073709551616), Z.mod_small; lia.
  - left. rewrite Z.mod_small; lia.
Qed.

Lemma decode_header_bound_witness :
  let m := fst (net_message_ctor (repeat x00 516) (bytes "hello") 5) in
  let length := get_body_length (fst (decode_header (repeat x00 5) m)) in
  0 <= length <= 9999 \/ 2 ^ 64 - 999 <= length < 2 ^ 64.
Proof.
  exact (decode_header_bound (repeat x00 5)
           (fst (net_message_ctor (repeat x00 516) (bytes "hello") 5))
           eq_refl).
Defined.

(** * One event of the server *)

Lemma lower_bound_loop_le {A} (comp : A -> bool) l fuel :
  forall first len,
    (first + len <= List.length l)%nat ->
    (lower_bound_loop comp l fuel first len <= List.length l)%nat.
Proof.
  induction fuel as [| fuel IH]; intros first len Hl; cbn; [lia |].
  destruct (Nat.eqb_spec len 0); [lia |].
  pose proof (Nat.lt_div2 len ltac:(lia)) as Hhalf.
  set (half := Nat.div2 len) in *. clearbody half.
  destruct (nth_error l (first + half)) as [x |]; [| lia].
  destruct (comp x); apply IH; lia.
Qed.

(* lower_bound returns a position of the list or its end. *)
Lemma lower_bound_le {A} (comp : A -> bool) l :
  (lower_bound comp l <= List.length l)%nat.
Proof. unfold lower_bound. apply lower_bound_loop_le. lia. Qed.

Section ServerEvents.

Variable u : uninitialised.

Lemma at_connection_exec i (f : M tcp_connection unit) s c :
  nth_error (connections_ s) i = Some c ->
  exec (at_connection i f) s =
    set_connections (replace_nth i (exec f c) (connections_ s)) s /\
  effects (at_connection i f) s = effects f c.
Proof.
  intros Hn. unfold exec, effects, at_connection. rewrite Hn.
  destruct (f c) as [[[] c'] es]. split; reflexivity.
Qed.

Lemma find_connection_in_range id s i :
  find_connection id s = Some i -> (i < List.length (connections_ s))%nat.
Proof.
  unfold find_connection.
  pose proof (lower_bound_le (fun c1 => to_size_t (get_id c1) <? id)
                (connections_ s)) as Hk.
  set (k := lower_bound _ _) in *.
  destruct (Nat.eqb_spec k (List.length (connections_ s))); [discriminate |].
  intros H. injection H as <-. lia.
Qed.

(* What each event does to the registry. *)
Lemma server_step_change ev s s' es :
  server_step u ev s = Some (s', es) ->
  acceptor_ s' = acceptor_ s /\
  registry_change u (connections_ s) (next_id_ s)
    (connections_ s') (next_id_ s') es.
Proof.
  destruct ev as [ec | i k | id body length | body length | id body length];
    cbn [server_step].
  - (* accept *)
    destruct s as [[pending] next cs]. cbn [acceptor_ accepts].
    destruct pending as [| n]; [discriminate |].
    unfold run_member. intros H. injection H as <- <-.
    destruct (is_error ec) eqn:Hec.
    + destruct (handle_accept_failure u ec
                  (set_accepts n {| acceptor_ := {| accepts := S n |};
                                    next_id_ := next; connections_ := cs |})
                  Hec) as [-> ->].
      split; [reflexivity |]. cbn [connections_ next_id_ set_accepts].
      rewrite <- (map_id cs) at 2.
      apply sent_some; [intros c; left; reflexivity | constructor].
    + destruct ec; try discriminate.
      destruct (handle_accept_success u
                  (set_accepts n {| acceptor_ := {| accepts := S n |};
                                    next_id_ := next; connections_ := cs |}))
        as [-> ->].
      split; [reflexivity |]. cbn [connections_ next_id_ set_accepts].
      apply accepted_one.
  - (* a connection's operation completes *)
    destruct (nth_error (connections_ s) i) as [c |] eqn:Hn;
      [| discriminate].
    destruct (complete u k c) as [[c' es0] |] eqn:Hc; [| discriminate].
    unfold run_member. intros H. injection H as <- <-.
    set (s1 := set_connections (replace_nth i c' (connections_ s)) s).
    destruct (complete_effects u _ _ _ _ Hc)
      as [(ec & tr & _ & _ & ->) | Hplain].
    + assert (Hn1 : nth_error (connections_ s1) i = Some c').
      { subst s1. cbn [connections_ set_connections].
        destruct (nth_error_split _ _ Hn) as (l1 & l2 & -> & <-).
        unfold replace_nth. rewrite firstn_exact, skipn_exact.
        rewrite nth_error_app2, Nat.sub_diag by lia. reflexivity. }
      destruct (dispatch_disconnect i c' s1 Hn1) as [-> ->].
      subst s1. cbn [connections_ set_connections acceptor_ next_id_].
      split; [reflexivity |]. rewrite remove_replace_nth.
      destruct (complete_key u _ _ _ _ Hc) as [Hi _].
      unfold get_id. rewrite Hi.
      apply (disconnected_one u _ _ i c c' k); assumption.
    + destruct (dispatch_plain i es0 s1 Hplain) as [-> ->].
      subst s1. split; [reflexivity |].
      apply (completed_one u _ _ i c c' k); assumption.
  - (* send_to *)
    unfold run_member. intros H. injection H as <- <-.
    unfold send_to. rewrite exec_bind_get, effects_bind_get.
    destruct (find_connection id s) as [j |] eqn:Hfind.
    + pose proof (find_connection_in_range _ _ _ Hfind) as Hj.
      destruct (nth_error (connections_ s) j) as [c |] eqn:Hn;
        [| apply nth_error_None in Hn; lia].
      pose proof (warn_plain (fresh_message u) body length) as Hw.
      destruct (net_message_ctor (fresh_message u) body length)
        as [msg warn]. cbn [snd] in Hw.
      destruct (at_connection_exec j (send u msg) s c Hn) as [He Hf].
      rewrite send_effects in Hf.
      unfold exec, effects, bind, emit_all in *.
      destruct (at_connection j (send u msg) s) as [[[] s2] es2].
      cbn [fst snd] in *. subst s2 es2. rewrite app_nil_r. cbn [app].
      split; [reflexivity |]. apply sent_one; assumption.
    + cbn. split; [reflexivity |]. rewrite <- (map_id (connections_ s)) at 2.
      apply sent_some; [intros c; left; reflexivity | repeat constructor].
  - (* send_to_all *)
    unfold run_member. intros H. injection H as <- <-.
    unfold send_to_all.
    pose proof (warn_plain (fresh_message u) body length) as Hw.
    destruct (net_message_ctor (fresh_message u) body length)
      as [msg warn]. cbn [snd] in Hw.
    set (loop := bind get _).
    assert (Hquiet : forall c, effects loop c = []).
    { intros c. subst loop. rewrite effects_bind_get.
      destruct (valid c); cbn [negb]; [apply send_effects | reflexivity]. }
    pose proof (for_each_quiet loop Hquiet (connections_ s)) as Hq.
    pose proof (for_each_map loop (connections_ s)) as Hm.
    unfold exec at 1 2 3, effects at 1, bind, emit_all, for_each_connection.
    destruct (for_each loop (connections_ s)) as [cs' es'].
    cbn [fst snd connections_ set_connections acceptor_ next_id_] in *.
    subst cs' es'. rewrite app_nil_r. split; [reflexivity |].
    apply sent_some; [| exact Hw].
    intros c. subst loop. rewrite exec_bind_get.
    destruct (valid c); cbn [negb]; [right; exists msg | left]; reflexivity.
  - (* send_to_all_except *)
    unfold run_member. intros H. injection H as <- <-.
    unfold send_to_all_except.
    pose proof (warn_plain (fresh_message u) body length) as Hw.
    destruct (net_message_ctor (fresh_message u) body length)
      as [msg warn]. cbn [snd] in Hw.
    set (loop := bind get _).
    assert (Hquiet : forall c, effects loop c = []).
    { intros c. subst loop. rewrite effects_bind_get.
      destruct (to_size_t (get_id c) =? id); [reflexivity |].
      destruct (valid c); cbn [negb]; [apply send_effects | reflexivity]. }
    pose proof (for_each_quiet loop Hquiet (connections_ s)) as Hq.
    pose proof (for_each_map loop (connections_ s)) as Hm.
    unfold exec at 1 2 3, effects at 1, bind, emit_all, for_each_connection.
    destruct (for_each loop (connections_ s)) as [cs' es'].
    cbn [fst snd connections_ set_connections acceptor_ next_id_] in *.
    subst cs' es'. rewrite app_nil_r. split; [reflexivity |].
    apply sent_some; [| exact Hw].
    intros c. subst loop. rewrite exec_bind_get.
    destruct (to_size_t (get_id c) =? id); [left; reflexivity |].
    destruct (valid c); cbn [negb]; [right; exists msg | left]; reflexivity.
Qed.

End ServerEvents.

(** * Invariants of the registered connections *)

Lemma replace_nth_Forall {A} (P : A -> Prop) i x l :
  Forall P l -> P x -> Forall P (replace_nth i x l).
Proof.
  intros Hl Hx. unfold replace_nth. apply Forall_app. split.
  - rewrite <- (firstn_skipn i l) in Hl. apply Forall_app in Hl. apply Hl.
  - rewrite <- (firstn_skipn i l) in Hl. apply Forall_app in Hl.
    destruct Hl as [_ Hl]. destruct (skipn i l) as [| y r]; [constructor |].
    inversion Hl; subst. constructor; assumption.
Qed.

Section RegistryForall.

Variable u : uninitialised.
Variable P : tcp_connection -> Prop.

Hypothesis P_send : forall msg c, P c -> P (exec (send u msg) c).
Hypothesis P_start : forall id, P (exec (start u) (tcp_connection_ctor u id)).
Hypothesis P_complete : forall k c c' es,
  P c -> complete u k c = Some (c', es) -> Forall plain_effect es -> P c'.

Lemma registry_change_Forall cs next cs' next' es :
  registry_change u cs next cs' next' es -> Forall P cs -> Forall P cs'.
Proof.
  intros Hch Hall. destruct Hch as [| i c c' k Hn Hc | i c c' k es Hn Hc Hp
                                    | i c msg es Hn Hp | f es Hf Hp].
  - apply Forall_app. split; [exact Hall | repeat constructor; apply P_start].
  - apply remove_nth_Forall. exact Hall.
  - apply replace_nth_Forall; [exact Hall |].
    rewrite Forall_forall in Hall.
    apply (P_complete k c c' es); [| assumption ..].
    apply Hall. apply (nth_error_In _ _ Hn).
  - apply replace_nth_Forall; [exact Hall |].
    rewrite Forall_forall in Hall. apply P_send, Hall, (nth_error_In _ _ Hn).
  - apply Forall_map. revert Hall. apply Forall_impl. intros c Hc.
    destruct (Hf c) as [-> | [msg ->]]; [exact Hc | apply P_send; exact Hc].
Qed.

Lemma server_run_Forall evs : forall s s' es,
  server_run u evs s = Some (s', es) ->
  Forall P (connections_ s) -> Forall P (connections_ s').
Proof.
  induction evs as [| ev evs IH]; intros s s' es Hrun Hall.
  - cbn in Hrun. injection Hrun as <- _. exact Hall.
  - cbn [server_run] in Hrun.
    destruct (server_step u ev s) as [[s1 es1] |] eqn:Hstep;
      [| discriminate].
    destruct (server_run u evs s1) as [[s2 es2] |] eqn:Hrest;
      [| discriminate].
    injection Hrun as <- _.
    apply (IH s1 s2 es2 Hrest).
    destruct (server_step_change u ev s s1 es1 Hstep) as [_ Hch].
    apply (registry_change_Forall _ _ _ _ _ Hch Hall).
Qed.

End RegistryForall.

Lemma server_run_acceptor u evs : forall s s' es,
  server_run u evs s = Some (s', es) -> acceptor_ s' = acceptor_ s.
Proof.
  induction evs as [| ev evs IH]; intros s s' es Hrun.
  - cbn in Hrun. injection Hrun as <- _. reflexivity.
  - cbn [server_run] in Hrun.
    destruct (server_step u ev s) as [[s1 es1] |] eqn:Hstep;
      [| discriminate].
    destruct (server_run u evs s1) as [[s2 es2] |] eqn:Hrest;
      [| discriminate].
    injection Hrun as <- _.
    rewrite (IH s1 s2 es2 Hrest).
    apply (server_step_change u ev s s1 es1 Hstep).
Qed.

Section StartedConnections.

Variable u : uninitialised.

Lemma started_write_loop_send msg c :
  started_write_loop u c -> started_write_loop u (exec (send u msg) c).
Proof.
  intros [E HE]. exists (E ++ [queued u msg]).
  exact (write_loop_step u _ (send_called msg) c _ _ HE eq_refl).
Qed.

Lemma started_write_loop_start id :
  started_write_loop u (exec (start u) (tcp_connection_ctor u id)).
Proof.
  exists [].
  exact (write_loop_step u [] start_called (tcp_connection_ctor u id) _ _
           (write_loop_initial u id) eq_refl).
Qed.

Lemma started_write_loop_complete k c c' es :
  started_write_loop u c -> complete u k c = Some (c', es) ->
  Forall plain_effect es -> started_write_loop u c'.
Proof.
  intros [E HE] Hc _. exists E.
  pose proof (write_loop_step u _ (io_completes k) c c' es HE Hc) as H.
  cbn [sent_messages map] in H. rewrite app_nil_r in H. exact H.
Qed.

Lemma one_read_send msg c :
  List.length (reads (socket_ c)) = 1%nat ->
  List.length (reads (socket_ (exec (send u msg) c))) = 1%nat.
Proof.
  intros H. rewrite send_socket.
  destruct (write_messages_ c); [cbn [start_write reads] |]; exact H.
Qed.

Lemma one_read_start id :
  List.length
    (reads (socket_ (exec (start u) (tcp_connection_ctor u id)))) = 1%nat.
Proof.
  destruct (start_is_send u (tcp_connection_ctor u id)) as [-> _].
  unfold exec at 1, read_header, modify. cbn [fst snd socket_ set_socket].
  cbn [start_read reads]. rewrite length_app, send_socket. reflexivity.
Qed.

Lemma one_read_complete k c c' es :
  List.length (reads (socket_ c)) = 1%nat ->
  complete u k c = Some (c', es) ->
  Forall plain_effect es ->
  List.length (reads (socket_ c')) = 1%nat.
Proof.
  intros H Hc Hp. destruct k as [ec | ec transferred].
  - destruct (writes (socket_ c)) as [| buffer rest] eqn:Hw;
      [unfold complete in Hc; rewrite Hw in Hc; discriminate |].
    destruct (is_error ec) eqn:Hec.
    + destruct (write_done_error u c ec _ _ Hec Hw)
        as (c1 & Hc1 & _ & _ & Hr & _).
      rewrite Hc1 in Hc. injection Hc as <- _. rewrite Hr. exact H.
    + destruct ec; try discriminate.
      destruct (write_done_ok u c _ _ Hw) as (c1 & Hc1 & _ & _ & Hr & _).
      rewrite Hc1 in Hc. injection Hc as <- _. rewrite Hr. exact H.
  - destruct (reads (socket_ c)) as [| op [| op' rest]] eqn:Hr;
      try discriminate.
    destruct op as [| n].
    + destruct (header_read_done u c [] ec transferred Hr)
        as (c1 & Hc1 & Hreads).
      rewrite Hc1 in Hc. injection Hc as <- <-. rewrite Hreads.
      destruct (peer_closed ec); [| reflexivity].
      inversion Hp as [| ? ? Hd _]; subst. contradiction.
    + destruct (body_read_done u c n [] ec transferred Hr)
        as (c1 & body & length & Hc1 & Hreads).
      rewrite Hc1 in Hc. injection Hc as <- _. rewrite Hreads. reflexivity.
Qed.

End StartedConnections.

(** * Frames on the wire *)

Lemma net_message_copy_prefix storage m front rest :
  data_ m = front ++ rest ->
  Z.to_nat (to_size_t (body_length_ m + header_length)) = List.length front ->
  data_ (net_message_copy storage m) =
    front ++ skipn (List.length front) storage /\
  body_length_ (net_message_copy storage m) = body_length_ m.
Proof.
  intros Hd Hn. split; [| reflexivity].
  unfold net_message_copy. cbn [data_]. rewrite Hn, Hd.
  unfold Libc.memcpy. rewrite firstn_O, firstn_exact. reflexivity.
Qed.

(* The element that send queues for a message built from a body carries the
   header and the body. *)
Lemma queued_buffer u storage body :
  let length := Z.of_nat (List.length body) in
  length <= max_body_length ->
  write_buffer (queued u (fst (net_message_ctor storage body length))) =
  Libc.sprintf_4d length ++ body.
Proof.
  intros length Hl. unfold max_body_length in Hl.
  pose proof (net_message_ctor_data storage body length ltac:(lia)) as Hd.
  pose proof (sprintf_4d_length length ltac:(lia)) as Hh.
  assert (Hn : Z.to_nat length = List.length body) by lia.
  rewrite Hn, firstn_all, app_assoc in Hd.
  assert (HN : Z.to_nat (to_size_t (length + header_length)) =
               List.length (Libc.sprintf_4d length ++ body)).
  { rewrite to_size_t_small
      by (unfold header_length; change (2 ^ 64) with 18446744073709551616; lia).
    rewrite length_app, Hh. unfold header_length. lia. }
  destruct (net_message_copy_prefix (fresh_message u) _ _ _ Hd HN)
    as [Hd1 Hl1].
  rewrite net_message_ctor_length in Hl1.
  assert (HN1 : Z.to_nat (to_size_t
                  (body_length_ (net_message_copy (fresh_message u)
                     (fst (net_message_ctor storage body length)))
                   + header_length)) =
                List.length (Libc.sprintf_4d length ++ body))
    by (rewrite Hl1; exact HN).
  destruct (net_message_copy_prefix (fresh_message u) _ _ _ Hd1 HN1)
    as [Hd2 Hl2].
  unfold write_buffer, get_data, get_body_length, queued.
  rewrite Hl2, Hl1, HN, Hd2. apply firstn_exact.
Qed.

(** X5: what send hands over for a message built from a body of at most
    max_body_length bytes.  The element appended to the queue carries the four
    characters of the length followed by the body and nothing else, through
    the two copies that send makes; if the queue was empty, exactly these
    bytes are given to async_write. *)
Theorem send_frame_bytes u body c :
  let length := Z.of_nat (List.length body) in
  length <= max_body_length ->
  let msg := fst (net_message_ctor (fresh_message u) body length) in
  let c' := exec (send u msg) c in
  map write_buffer (write_messages_ c') =
    map write_buffer (write_messages_ c) ++ [Libc.sprintf_4d length ++ body] /\
  (write_messages_ c = [] ->
   writes (socket_ c') =
     writes (socket_ c) ++ [Libc.sprintf_4d length ++ body]).
Proof.
  intros length Hl msg c'. subst c' msg.
  pose proof (queued_buffer u (fresh_message u) body Hl) as Hq.
  fold length in Hq. split.
  - rewrite send_queue, map_app. cbn [map]. rewrite Hq. reflexivity.
  - intros Hempty. rewrite send_socket, Hempty. cbn [start_write writes].
    rewrite Hq. reflexivity.
Qed.

Lemma send_frame_bytes_witness :
  let c := tcp_connection_ctor zeroed 0 in
  let msg := fst (net_message_ctor (fresh_message zeroed) (bytes "hello") 5) in
  writes (socket_ (exec (send zeroed msg) c)) = [bytes "   5hello"].
Proof.
  exact (proj2 (send_frame_bytes zeroed (bytes "hello")
                  (tcp_connection_ctor zeroed 0) ltac:(discriminate))
               eq_refl).
Defined.

(** X6: in every state that a server reaches by a run that stays inside
    data_ (lengths of at most max_body_length in send_to, send_to_all and
    send_to_all_except, reads of at most max_body_length bytes), every
    connection of the registry has at most one write outstanding, and an
    outstanding write is the write of the message at the head of the
    connection's queue. *)
Theorem registry_write_loops u evs s es :
  server_run u evs net_server_ctor = Some (s, es) ->
  server_run_fits u evs net_server_ctor = true ->
  Forall (fun c =>
            writes (socket_ c) = [] \/
            exists m q, write_messages_ c = m :: q /\
                        writes (socket_ c) = [write_buffer m])
         (connections_ s).
Proof.
  intros Hrun _.
  pose proof (server_run_Forall u (started_write_loop u)
                (started_write_loop_send u) (started_write_loop_start u)
                (started_write_loop_complete u) evs _ _ _ Hrun
                (Forall_nil _)) as Hall.
  revert Hall. apply Forall_impl. intros c (E & done & _ & _ & H). exact H.
Qed.

Lemma registry_write_loops_witness :
  let ok := accept_completes ec_success in
  exists s es,
    server_run zeroed [ok; send_to_all_called (bytes "hi") 2] net_server_ctor
      = Some (s, es) /\
    List.length (connections_ s) = 1%nat /\
    Forall (fun c =>
              writes (socket_ c) = [] \/
              exists m q, write_messages_ c = m :: q /\
                          writes (socket_ c) = [write_buffer m])
           (connections_ s).
Proof.
  intros ok. eexists. eexists.
  split; [vm_compute; reflexivity |]. split; [reflexivity |].
  eapply (registry_write_loops zeroed
            [ok; send_to_all_called (bytes "hi") 2]).
  - vm_compute. reflexivity.
  - vm_compute. reflexivity.
Defined.

(** X7: the first frame that goes to a connection is the greeting.  In every
    state that a server reaches by a run that stays inside data_ and for
    every connection of the registry, the frames written so far followed by
    the frames of the queue start with the frame of "server: connected". *)
Theorem greeting_goes_first u evs s es :
  server_run u evs net_server_ctor = Some (s, es) ->
  server_run_fits u evs net_server_ctor = true ->
  Forall (fun c =>
            hd_error (wire_out (socket_ c) ++
                      map write_buffer (write_messages_ c)) =
            Some (bytes "  17server: connected"))
         (connections_ s).
Proof.
  intros Hrun _.
  pose proof (server_run_Forall u (started_write_loop u)
                (started_write_loop_send u) (started_write_loop_start u)
                (started_write_loop_complete u) evs _ _ _ Hrun
                (Forall_nil _)) as Hall.
  revert Hall. apply Forall_impl. intros c (E & done & HE & HW & _).
  rewrite HW, <- map_app, <- HE. cbn [map hd_error].
  pose proof (queued_buffer u (fresh_message u) first_message
                ltac:(discriminate)) as Hq.
  cbv zeta in Hq. unfold greeting, Libc.strlen. rewrite Hq. reflexivity.
Qed.

Lemma greeting_goes_first_witness :
  let ok := accept_completes ec_success in
  exists s es,
    server_run zeroed
      [ok; send_to_called 0 (bytes "hi") 2;
       connection_completes 0 (write_completes ec_success)]
      net_server_ctor = Some (s, es) /\
    map (fun c => wire_out (socket_ c)) (connections_ s) =
      [[bytes "  17server: connected"]] /\
    Forall (fun c =>
              hd_error (wire_out (socket_ c) ++
                        map write_buffer (write_messages_ c)) =
              Some (bytes "  17server: connected"))
           (connections_ s).
Proof.
  intros ok. eexists. eexists.
  split; [vm_compute; reflexivity |]. split; [reflexivity |].
  eapply (greeting_goes_first zeroed
            [ok; send_to_called 0 (bytes "hi") 2;
             connection_completes 0 (write_completes ec_success)]).
  - vm_compute. reflexivity.
  - vm_compute. reflexivity.
Defined.

(** X8: the event loops stay armed.  In every state that a server reaches
    by a run that stays inside data_, exactly one accept is outstanding, and
    every connection of the registry has exactly one read outstanding. *)
Theorem loops_stay_armed u evs s es :
  server_run u evs net_server_ctor = Some (s, es) ->
  server_run_fits u evs net_server_ctor = true ->
  accepts (acceptor_ s) = 1%nat /\
  Forall (fun c => List.length (reads (socket_ c)) = 1%nat) (connections_ s).
Proof.
  intros Hrun _. split.
  - rewrite (server_run_acceptor u evs _ _ _ Hrun). reflexivity.
  - apply (server_run_Forall u _ (one_read_send u) (one_read_start u)
             (one_read_complete u) evs _ _ _ Hrun (Forall_nil _)).
Qed.

Lemma loops_stay_armed_witness :
  let ok := accept_completes ec_success in
  exists s es,
    server_run zeroed
      [ok; connection_completes 0 (read_completes ec_success (bytes "   2"));
       connection_completes 0 (read_completes ec_success (bytes "hi"))]
      net_server_ctor = Some (s, es) /\
    es = [AcceptHandler 0 true; ReadHandler 0 (bytes "hi" ++ [x00]) 2] /\
    accepts (acceptor_ s) = 1%nat /\
    Forall (fun c => List.length (reads (socket_ c)) = 1%nat) (connections_ s).
Proof.
  intros ok. eexists. eexists.
  split; [vm_compute; reflexivity |]. split; [reflexivity |].
  eapply (loops_stay_armed zeroed
            [ok; connection_completes 0
                   (read_completes ec_success (bytes "   2"));
             connection_completes 0 (read_completes ec_success (bytes "hi"))]).
  - vm_compute. reflexivity.
  - vm_compute. reflexivity.
Defined.

(** * Ids assigned and ids released *)

Lemma released_ids_app es1 es2 :
  released_ids (es1 ++ es2) = released_ids es1 ++ released_ids es2.
Proof.
  induction es1 as [| e es1 IH]; [reflexivity |].
  destruct e as [| | | id [|] |]; cbn [app released_ids]; rewrite IH;
    reflexivity.
Qed.

Lemma released_ids_plain es : Forall plain_effect es -> released_ids es = [].
Proof.
  induction 1 as [| e es He _ IH]; [reflexivity |].
  destruct e; cbn in *; try contradiction; exact IH.
Qed.

Lemma remove_nth_Permutation {A} (l : list A) i x :
  nth_error l i = Some x -> Permutation l (x :: remove_nth i l).
Proof.
  intros Hn. destruct (nth_error_split _ _ Hn) as (l1 & l2 & -> & <-).
  unfold remove_nth. rewrite firstn_exact.
  replace (S (List.length l1)) with (List.length (l1 ++ [x]))
    by (rewrite length_app; cbn; lia).
  change (l1 ++ x :: l2) with (l1 ++ [x] ++ l2).
  rewrite app_assoc, skipn_exact, <- app_assoc.
  symmetry. apply Permutation_middle.
Qed.

Lemma count_from_cons_inv k n x :
  count_from k n = [x] -> n = 1%nat.
Proof. destruct n as [| [| n]]; cbn; congruence. Qed.

Lemma count_from_nil_inv k n : count_from k n = [] -> n = O.
Proof. destruct n; cbn; congruence. Qed.

Section IdsAccounting.

Variable u : uninitialised.

(* The ids of the registry after one event, with the id released. *)
Lemma registry_change_ids cs next cs' next' es :
  registry_change u cs next cs' next' es ->
  (map get_id cs' = map get_id cs ++ [to_int next] /\
   assigned_ids es = [next] /\ released_ids es = []) \/
  (exists i c,
     nth_error cs i = Some c /\
     map get_id cs' = remove_nth i (map get_id cs) /\
     assigned_ids es = [] /\ released_ids es = [to_size_t (get_id c)]) \/
  (map get_id cs' = map get_id cs /\
   assigned_ids es = [] /\ released_ids es = []).
Proof.
  intros [| i c c' k Hn Hc | i c c' k es0 Hn Hc Hp
          | i c msg es0 Hn Hp | f es0 Hf Hp].
  - left. rewrite map_app. cbn [map].
    destruct (start_key u (tcp_connection_ctor u next)) as [Hi _].
    unfold get_id at 2. rewrite Hi. repeat split.
  - right. left. exists i, c. rewrite remove_nth_map. repeat split.
    exact Hn.
  - right. right.
    destruct (complete_key u _ _ _ _ Hc) as [Hi _].
    rewrite (replace_nth_map get_id i c' c _ Hn Hi).
    repeat split; [apply assigned_ids_plain | apply released_ids_plain];
      exact Hp.
  - right. right.
    destruct (send_rest u msg c) as [Hi _].
    rewrite (replace_nth_map get_id i _ c _ Hn Hi).
    repeat split; [apply assigned_ids_plain | apply released_ids_plain];
      exact Hp.
  - right. right. rewrite map_map.
    split; [| split; [apply assigned_ids_plain | apply released_ids_plain];
              exact Hp].
    apply map_ext. intros c.
    destruct (Hf c) as [-> | [msg ->]]; [reflexivity |].
    apply (send_rest u msg c).
Qed.

Lemma ids_accounting_run evs : forall s s' es k,
  0 <= k -> k + accepted evs <= 2 ^ 31 ->
  registry_ok k s -> server_run u evs s = Some (s', es) ->
  Permutation
    (map get_id (connections_ s) ++ count_from k (Z.to_nat (accepted evs)))
    (map get_id (connections_ s') ++ released_ids es).
Proof.
  induction evs as [| ev evs IH]; intros s s' es k Hk Hbound Hok Hrun.
  - cbn in *. injection Hrun as <- <-. reflexivity.
  - cbn [server_run] in Hrun.
    destruct (server_step u ev s) as [[s1 es1] |] eqn:Hstep;
      [| discriminate].
    destruct (server_run u evs s1) as [[s2 es2] |] eqn:Hrest;
      [| discriminate].
    injection Hrun as <- <-.
    rewrite accepted_cons in *.
    pose proof (accepted_nonneg evs) as H1.
    pose proof (accepted_nonneg [ev]) as H2.
    destruct (registry_ok_step u ev s s1 es1 k Hk ltac:(lia) Hok Hstep)
      as [Hok1 Hids1].
    specialize (IH s1 s2 es2 (k + accepted [ev]) ltac:(lia) ltac:(lia)
                  Hok1 Hrest).
    destruct (server_step_change u ev s s1 es1 Hstep) as [_ Hch].
    destruct Hok as (Hnext & _ & Hrange). rewrite Hnext in Hch.
    rewrite released_ids_app, Z2Nat.inj_add, count_from_app, Z2Nat.id by lia.
    destruct (registry_change_ids _ _ _ _ _ Hch)
      as [(Hm & Ha & Hr) | [(i & c & Hn & Hm & Ha & Hr) | (Hm & Ha & Hr)]];
      rewrite Ha in Hids1; symmetry in Hids1.
    + apply count_from_cons_inv in Hids1. rewrite Hids1 in *.
      rewrite Hm, Hr in *. cbn [count_from app].
      rewrite to_int_small in IH
        by (change (2 ^ 31) with 2147483648 in *; lia).
      rewrite <- app_assoc in IH. exact IH.
    + apply count_from_nil_inv in Hids1. rewrite Hids1 in *.
      cbn [count_from app]. rewrite Hm, Hr in *.
      assert (Hc : 0 <= get_id c < k).
      { unfold registry_keys in Hrange. rewrite Forall_map in Hrange.
        rewrite Forall_forall in Hrange.
        apply (Hrange c (nth_error_In _ _ Hn)). }
      rewrite to_size_t_small
        by (change (2 ^ 64) with 18446744073709551616;
            change (2 ^ 31) with 2147483648 in *; lia).
      pose proof (remove_nth_Permutation _ _ _ (map_nth_error get_id _ _ Hn))
        as Hperm.
      cbn [app]. rewrite <- Permutation_middle.
      etransitivity; [apply Permutation_app_tail; exact Hperm |].
      cbn [app]. apply perm_skip. exact IH.
    + apply count_from_nil_inv in Hids1. rewrite Hids1 in *.
      cbn [count_from app]. rewrite Hm, Hr in *. exact IH.
Qed.

End IdsAccounting.

(** X9: the registry holds exactly the ids that were assigned and not
    released.  For a run that stays inside data_ and has at most 2^31
    accepted connections, the ids announced to the accept handler as
    connected are, up to their order, the ids of the connections in the
    registry together with the ids announced as disconnected; so the
    registry has as many connections as were accepted less those
    disconnected. *)
Theorem registry_accounting u evs s es :
  server_run u evs net_server_ctor = Some (s, es) ->
  server_run_fits u evs net_server_ctor = true ->
  accepted evs <= 2 ^ 31 ->
  Permutation (assigned_ids es)
    (map get_id (connections_ s) ++ released_ids es) /\
  Z.of_nat (List.length (connections_ s)) =
    accepted evs - Z.of_nat (List.length (released_ids es)).
Proof.
  intros Hrun _ Hbound.
  destruct (registry_ok_run u evs _ _ _ 0 ltac:(lia) ltac:(lia)
              registry_ok_initial Hrun) as [_ Hids].
  pose proof (ids_accounting_run u evs _ _ _ 0 ltac:(lia) ltac:(lia)
                registry_ok_initial Hrun) as Hperm.
  cbn [net_server_ctor connections_ map app] in Hperm.
  change (map get_id (connections_ net_server_ctor)) with (@nil Z) in Hperm.
  cbn [app] in Hperm. rewrite <- Hids in Hperm.
  split; [exact Hperm |].
  apply Permutation_length in Hperm.
  rewrite length_app, length_map in Hperm.
  assert (Hlen : List.length (assigned_ids es) = Z.to_nat (accepted evs)).
  { rewrite Hids. clear. generalize 0.
    induction (Z.to_nat (accepted evs)) as [| n IH]; intros z; cbn;
      [reflexivity | rewrite IH; reflexivity]. }
  pose proof (accepted_nonneg evs). lia.
Qed.

Lemma registry_accounting_witness :
  let ok := accept_completes ec_success in
  let evs := [ok; ok; connection_completes 0 (read_completes ec_eof []); ok] in
  exists s es,
    server_run zeroed evs net_server_ctor = Some (s, es) /\
    assigned_ids es = [0; 1; 2] /\ released_ids es = [0] /\
    Permutation (assigned_ids es)
      (map get_id (connections_ s) ++ released_ids es).
Proof.
  intros ok evs. eexists. eexists.
  split; [vm_compute; reflexivity |].
  split; [reflexivity |]. split; [reflexivity |].
  eapply (fun s es H B =>
            proj1 (registry_accounting zeroed evs s es H
                     ltac:(vm_compute; reflexivity) B)).
  - vm_compute. reflexivity.
  - vm_compute. discriminate.
Defined.

(** X10: the disconnection of a connection is reported once.  For a run
    that stays inside data_ and has at most 2^31 accepted connections, no id
    is announced twice as disconnected, every id announced as disconnected
    is one that was announced as connected, and no connection of the
    registry carries an id announced as disconnected. *)
Theorem disconnect_reported_once u evs s es :
  server_run u evs net_server_ctor = Some (s, es) ->
  server_run_fits u evs net_server_ctor = true ->
  accepted evs <= 2 ^ 31 ->
  NoDup (released_ids es) /\
  (forall id, In id (released_ids es) -> In id (assigned_ids es)) /\
  (forall id, In id (released_ids es) ->
              ~ In id (map get_id (connections_ s))).
Proof.
  intros Hrun _ Hbound.
  destruct (registry_ok_run u evs _ _ _ 0 ltac:(lia) ltac:(lia)
              registry_ok_initial Hrun) as [_ Hids].
  pose proof (ids_accounting_run u evs _ _ _ 0 ltac:(lia) ltac:(lia)
                registry_ok_initial Hrun) as Hperm.
  change (map get_id (connections_ net_server_ctor)) with (@nil Z) in Hperm.
  cbn [app] in Hperm. rewrite <- Hids in Hperm.
  assert (Hnd : NoDup (map get_id (connections_ s) ++ released_ids es)).
  { apply (Permutation_NoDup Hperm). rewrite Hids.
    apply sorted_NoDup, count_from_sorted. }
  split; [apply (NoDup_app_remove_l _ _ Hnd) |]. split.
  - intros id Hin. apply (Permutation_in _ (Permutation_sym Hperm)).
    apply in_or_app. right. exact Hin.
  - intros id Hin Hreg.
    destruct (in_split _ _ Hin) as (l1 & l2 & Hsplit).
    rewrite Hsplit, app_assoc in Hnd.
    apply NoDup_remove_2 in Hnd. apply Hnd.
    rewrite <- app_assoc. apply in_or_app. left. exact Hreg.
Qed.

Lemma disconnect_reported_once_witness :
  let ok := accept_completes ec_success in
  let evs := [ok; ok; connection_completes 0 (read_completes ec_eof []);
              connection_completes 0 (read_completes ec_eof [])] in
  exists s es,
    server_run zeroed evs net_server_ctor = Some (s, es) /\
    released_ids es = [0; 1] /\
    NoDup (released_ids es).
Proof.
  intros ok evs. eexists. eexists.
  split; [vm_compute; reflexivity |]. split; [reflexivity |].
  eapply (fun s es H B =>
            proj1 (disconnect_reported_once zeroed evs s es H
                     ltac:(vm_compute; reflexivity) B)).
  - vm_compute. reflexivity.
  - vm_compute. discriminate.
Defined.

(** * Looking up and addressing connections *)

Lemma filter_none_above (l : list Z) a bound :
  Forall (Z.lt a) l -> bound <= a ->
  filter (fun y => y <? bound) l = [].
Proof.
  intros Hall Ha. induction Hall as [| b l Hab _ IH]; [reflexivity |].
  cbn [filter]. destruct (Z.ltb_spec b bound); [lia | exact IH].
Qed.

(* A list in strictly ascending order is partitioned, for every bound, at
   the number of its elements below the bound. *)
Lemma sorted_partition (l : list Z) bound :
  StronglySorted Z.lt l ->
  forall j x, nth_error l j = Some x ->
    (x <? bound) = Nat.ltb j (List.length (filter (fun y => y <? bound) l)).
Proof.
  induction 1 as [| a l Hs IH Hall]; intros j x Hj;
    [destruct j; discriminate |].
  cbn [filter]. destruct (Z.ltb_spec a bound) as [Ha | Ha].
  - destruct j as [| j]; cbn in Hj.
    + injection Hj as <-. apply Z.ltb_lt. exact Ha.
    + rewrite (IH j x Hj). reflexivity.
  - assert (Hnone : filter (fun y => y <? bound) l = []).
    { apply filter_none_above with (a := a); assumption. }
    rewrite Hnone. cbn [List.length].
    destruct j as [| j]; cbn in Hj.
    + injection Hj as <-. apply Z.ltb_ge. exact Ha.
    + rewrite Forall_forall in Hall.
      pose proof (Hall x (nth_error_In _ _ Hj)). apply Z.ltb_ge. lia.
Qed.

Section Addressing.

Variable u : uninitialised.

Lemma registry_ok_sorted_range k s :
  registry_ok k s -> k <= 2 ^ 31 ->
  StronglySorted Z.lt (map get_id (connections_ s)) /\
  Forall (fun c => 0 <= get_id c < 2 ^ 31) (connections_ s) /\
  Forall (fun c => 0 <= get_id c < k) (connections_ s).
Proof.
  intros (_ & Hsorted & Hrange) Hk.
  rewrite registry_keys_ids in Hsorted.
  unfold registry_keys in Hrange. rewrite Forall_map in Hrange.
  split; [exact Hsorted |]. split; [| exact Hrange].
  revert Hrange. apply Forall_impl. intros c. cbn [key fst]. lia.
Qed.

Lemma reachable_registry_ok evs s es :
  server_run u evs net_server_ctor = Some (s, es) ->
  accepted evs <= 2 ^ 31 ->
  registry_ok (accepted evs) s.
Proof.
  intros Hrun Hbound.
  apply (registry_ok_run u evs _ _ _ 0 ltac:(lia) ltac:(lia)
           registry_ok_initial Hrun).
Qed.

(* find_connection in a registry in ascending order of ids that are not
   negative and fit an int: the position behind the connections with ids
   below the id searched for. *)
Lemma find_connection_sorted s id :
  StronglySorted Z.lt (map get_id (connections_ s)) ->
  Forall (fun c => 0 <= get_id c < 2 ^ 31) (connections_ s) ->
  let k := List.length (filter (fun y => y <? id)
                          (map get_id (connections_ s))) in
  find_connection id s =
    if (k =? List.length (connections_ s))%nat then None else Some k.
Proof.
  intros Hsorted Hrange k. unfold find_connection.
  rewrite (lower_bound_partition _ (connections_ s) k); [reflexivity | |].
  - intros j x Hj.
    rewrite Forall_forall in Hrange.
    pose proof (Hrange _ (nth_error_In _ _ Hj)) as Hx.
    rewrite to_size_t_small
      by (change (2 ^ 64) with 18446744073709551616;
          change (2 ^ 31) with 2147483648 in *; lia).
    apply (sorted_partition _ id Hsorted j).
    apply map_nth_error. exact Hj.
  - subst k. rewrite <- (length_map get_id (connections_ s)).
    apply filter_length_le.
Qed.

End Addressing.

(** X11: what find_connection returns.  In every state that a server reaches
    by a run that stays inside data_ and has at most 2^31 connections
    accepted, find_connection of an id returns the first connection of the
    registry whose id is not below that id, be it the id searched for or a
    larger one, and nullptr exactly when every id of the registry is below
    it. *)
Theorem find_connection_first_not_below u evs s es id :
  server_run u evs net_server_ctor = Some (s, es) ->
  server_run_fits u evs net_server_ctor = true ->
  accepted evs <= 2 ^ 31 ->
  match find_connection id s with
  | Some i =>
      exists c,
        nth_error (connections_ s) i = Some c /\ id <= get_id c /\
        forall j c', (j < i)%nat ->
          nth_error (connections_ s) j = Some c' -> get_id c' < id
  | None => forall c, In c (connections_ s) -> get_id c < id
  end.
Proof.
  intros Hrun _ Hbound.
  pose proof (reachable_registry_ok u evs s es Hrun Hbound) as Hok.
  destruct (registry_ok_sorted_range _ _ Hok Hbound)
    as (Hsorted & Hrange & _).
  rewrite (find_connection_sorted s id Hsorted Hrange).
  set (k := List.length _).
  assert (Hpart : forall j c, nth_error (connections_ s) j = Some c ->
                    (get_id c <? id) = Nat.ltb j k).
  { intros j c Hj. apply (sorted_partition _ id Hsorted j).
    apply map_nth_error. exact Hj. }
  assert (Hk : (k <= List.length (connections_ s))%nat).
  { subst k. rewrite <- (length_map get_id (connections_ s)).
    apply filter_length_le. }
  destruct (Nat.eqb_spec k (List.length (connections_ s))) as [Heq | Hne].
  - intros c Hin. destruct (In_nth_error _ _ Hin) as [j Hj].
    apply Z.ltb_lt. rewrite (Hpart j c Hj). apply Nat.ltb_lt.
    rewrite Heq. apply nth_error_Some. congruence.
  - destruct (nth_error (connections_ s) k) as [c |] eqn:Hn;
      [| apply nth_error_None in Hn; lia].
    exists c. split; [reflexivity |]. split.
    + apply Z.ltb_ge. rewrite (Hpart k c Hn). apply Nat.ltb_irrefl.
    + intros j c' Hlt Hj. apply Z.ltb_lt. rewrite (Hpart j c' Hj).
      apply Nat.ltb_lt. exact Hlt.
Qed.

Lemma find_connection_first_not_below_witness :
  let ok := accept_completes ec_success in
  let evs := [ok; ok; ok; connection_completes 1 (read_completes ec_eof [])] in
  exists s es c,
    server_run zeroed evs net_server_ctor = Some (s, es) /\
    find_connection 1 s = Some 1%nat /\
    nth_error (connections_ s) 1 = Some c /\ 1 <= get_id c.
Proof.
  intros ok evs.
  destruct (server_run zeroed evs net_server_ctor) as [[s es] |] eqn:Hrun;
    [| vm_compute in Hrun; discriminate].
  pose proof (find_connection_first_not_below zeroed evs s es 1 Hrun
                ltac:(vm_compute; reflexivity)
                ltac:(vm_compute; discriminate)) as H.
  assert (Hf : find_connection 1 s = Some 1%nat)
    by (vm_compute in Hrun; injection Hrun as <- _; reflexivity).
  rewrite Hf in H. destruct H as (c & Hn & Hle & _).
  exists s, es, c. repeat split; assumption.
Defined.

(** X12: send_to of the id of a registered connection.  In every state that
    a server reaches by a run that stays inside data_ and has at most 2^31
    connections accepted, send_to of the id of a connection of the registry,
    with a length of at most max_body_length, appends the frame to the queue
    of that connection, leaves every other connection as it is and prints
    nothing. *)
Theorem send_to_registered u evs s es i c body length :
  server_run u evs net_server_ctor = Some (s, es) ->
  server_run_fits u evs net_server_ctor = true ->
  accepted evs <= 2 ^ 31 ->
  nth_error (connections_ s) i = Some c ->
  length_fits length = true ->
  let msg := fst (net_message_ctor (fresh_message u) body length) in
  let s' := exec (send_to u (get_id c) body length) s in
  connections_ s' = replace_nth i (exec (send u msg) c) (connections_ s) /\
  write_messages_ (exec (send u msg) c) = write_messages_ c ++ [queued u msg] /\
  effects (send_to u (get_id c) body length) s = [].
Proof.
  intros Hrun _ Hbound Hn Hl msg s'. subst msg s'.
  pose proof (reachable_registry_ok u evs s es Hrun Hbound) as Hok.
  destruct (registry_ok_sorted_range _ _ Hok Hbound)
    as (Hsorted & Hrange & _).
  destruct (send_to_present u s i c body length Hsorted Hrange Hn)
    as (Hc & Hq & He).
  split; [exact Hc |]. split; [exact Hq |].
  rewrite He. apply net_message_ctor_quiet.
  unfold length_fits in Hl. apply andb_prop in Hl. destruct Hl as [_ Hl].
  apply Z.leb_le. exact Hl.
Qed.

Lemma send_to_registered_witness :
  let ok := accept_completes ec_success in
  exists s es c,
    server_run zeroed [ok; ok] net_server_ctor = Some (s, es) /\
    nth_error (connections_ s) 1 = Some c /\
    map (fun c => map write_buffer (write_messages_ c))
        (connections_ (exec (send_to zeroed (get_id c) (bytes "hi") 2) s)) =
      [[bytes "  17server: connected"];
       [bytes "  17server: connected"; bytes "   2hi"]] /\
    effects (send_to zeroed (get_id c) (bytes "hi") 2) s = [].
Proof.
  intros ok. eexists. eexists. eexists.
  split; [vm_compute; reflexivity |].
  split; [vm_compute; reflexivity |].
  split; [reflexivity |].
  refine (proj2 (proj2 (send_to_registered zeroed [ok; ok] _ _ 1 _
                          (bytes "hi") 2 _ _ _ _ _)));
    [vm_compute; reflexivity | vm_compute; reflexivity
     | vm_compute; discriminate | reflexivity | reflexivity].
Defined.

(** X13: send_to of an id that was never assigned.  In every state that a
    server reaches by a run that stays inside data_ and has at most 2^31
    connections accepted, send_to of an id that is not below next_id_
    changes nothing and prints "client not found", once. *)
Theorem send_to_unassigned u evs s es id body length :
  server_run u evs net_server_ctor = Some (s, es) ->
  server_run_fits u evs net_server_ctor = true ->
  accepted evs <= 2 ^ 31 ->
  next_id_ s <= id < 2 ^ 64 ->
  exec (send_to u id body length) s = s /\
  effects (send_to u id body length) s = [Cerr (client_not_found id)].
Proof.
  intros Hrun _ Hbound Hid.
  pose proof (reachable_registry_ok u evs s es Hrun Hbound) as Hok.
  destruct (registry_ok_sorted_range _ _ Hok Hbound) as (_ & _ & Hrange).
  destruct Hok as (Hnext & _).
  apply send_to_above; [| lia].
  revert Hrange. apply Forall_impl. intros c. lia.
Qed.

Lemma send_to_unassigned_witness :
  let ok := accept_completes ec_success in
  exists s es,
    server_run zeroed [ok] net_server_ctor = Some (s, es) /\
    exec (send_to zeroed 7 (bytes "hi") 2) s = s /\
    effects (send_to zeroed 7 (bytes "hi") 2) s = [Cerr (client_not_found 7)].
Proof.
  intros ok. eexists. eexists.
  split; [vm_compute; reflexivity |].
  refine (send_to_unassigned zeroed [ok] _ _ 7 (bytes "hi") 2 _ _ _ _);
    [vm_compute; reflexivity | vm_compute; reflexivity
     | vm_compute; discriminate
     | split; [vm_compute; discriminate | reflexivity]].
Defined.

Lemma for_each_ext_in (body1 body2 : M tcp_connection unit) cs :
  (forall c, In c cs -> body1 c = body2 c) ->
  for_each body1 cs = for_each body2 cs.
Proof.
  induction cs as [| c cs IH]; intros H; [reflexivity |].
  cbn [for_each]. rewrite (H c (or_introl eq_refl)), IH; [reflexivity |].
  intros c' Hin. apply H. right. exact Hin.
Qed.

(** X14: excluding an id that no connection has.  When no connection of the
    registry has the id, send_to_all_except does what send_to_all does: the
    same registry results and the same output. *)
Theorem send_to_all_except_absent u s id body length :
  Forall (fun c => to_size_t (get_id c) <> id) (connections_ s) ->
  send_to_all_except u id body length s = send_to_all u body length s.
Proof.
  intros Habs. unfold send_to_all_except, send_to_all.
  destruct (net_message_ctor (fresh_message u) body length) as [msg warn].
  unfold bind, emit_all, for_each_connection.
  rewrite (for_each_ext_in _
             (bind get (fun c => if negb (valid c) then ret tt
                                 else send u msg))
             (connections_ s)); [reflexivity |].
  intros c Hin. rewrite Forall_forall in Habs.
  unfold bind, get.
  destruct (Z.eqb_spec (to_size_t (get_id c)) id) as [E | _];
    [exfalso; apply (Habs c Hin E) | reflexivity].
Qed.

Lemma send_to_all_except_absent_witness :
  let s := exec (handle_accept zeroed ec_success) net_server_ctor in
  send_to_all_except zeroed 5 (bytes "hi") 2 s =
  send_to_all zeroed (bytes "hi") 2 s.
Proof.
  apply send_to_all_except_absent.
  repeat constructor. vm_compute. discriminate.
Defined.

(** * Receiving a frame *)

(* The bytes that async_write is given for a message the constructor built
   from a body. *)
Lemma net_message_ctor_buffer storage body :
  let length := Z.of_nat (List.length body) in
  length <= 9999 ->
  write_buffer (fst (net_message_ctor storage body length)) =
  Libc.sprintf_4d length ++ body.
Proof.
  intros length Hl.
  pose proof (net_message_ctor_data storage body length ltac:(lia)) as Hd.
  pose proof (sprintf_4d_length length ltac:(lia)) as Hh.
  assert (Hn : Z.to_nat length = List.length body) by lia.
  rewrite Hn, firstn_all, app_assoc in Hd.
  unfold write_buffer, get_data, get_body_length.
  rewrite net_message_ctor_length, Hd.
  rewrite to_size_t_small
    by (unfold header_length; change (2 ^ 64) with 18446744073709551616; lia).
  replace (Z.to_nat (length + header_length))
    with (List.length (Libc.sprintf_4d length ++ body))
    by (rewrite length_app, Hh; unfold header_length; lia).
  apply firstn_exact.
Qed.

(* decode_header on a message whose header bytes were just read. *)
Lemma decode_received_header stack m n :
  0 <= n <= 9999 -> stops (skipn 4 stack) = true ->
  decode_header stack (deposit 0 header_length (Libc.sprintf_4d n) m) =
    ({| data_ := Libc.sprintf_4d n ++ skipn 4 (data_ m); body_length_ := n |},
     if max_body_length <? n then [Cerr decode_warning] else []).
Proof.
  intros Hn Hs.
  pose proof (sprintf_4d_length n Hn) as Hl.
  assert (Hd : data_ (deposit 0 header_length (Libc.sprintf_4d n) m) =
               Libc.sprintf_4d n ++ skipn 4 (data_ m)).
  { unfold deposit. cbn [data_]. change (Z.to_nat header_length) with 4%nat.
    change (Z.to_nat 0) with 0%nat.
    rewrite <- Hl at 1 2. rewrite firstn_all, Hl.
    rewrite <- (app_nil_r (Libc.sprintf_4d n)) at 1.
    apply memcpy_front. exact Hl. }
  unfold decode_header. rewrite Hd.
  change (Z.to_nat header_length) with 4%nat.
  rewrite (memcpy_front stack _ _ 4 Hl).
  rewrite atoi_sprintf_4d by assumption.
  rewrite to_size_t_small
    by (change (2 ^ 64) with 18446744073709551616; lia).
  reflexivity.
Qed.

(* The body segment after the read of the body. *)
Lemma received_body header rest body :
  List.length header = 4%nat ->
  let n := Z.of_nat (List.length body) in
  let m := deposit header_length n body
             {| data_ := header ++ rest; body_length_ := n |} in
  get_body_length m = n /\
  firstn (Z.to_nat n) (get_body m) = body.
Proof.
  intros Hh n m. subst m. split; [reflexivity |].
  unfold get_body, deposit. cbn [data_].
  assert (Hn : Z.to_nat n = List.length body) by (subst n; lia).
  change (Z.to_nat header_length) with 4%nat.
  rewrite Hn, firstn_all. rewrite <- Hh.
  rewrite memcpy_after, skipn_exact, firstn_all.
  apply firstn_exact.
Qed.

(* A client whose read loop waits for a header is given a frame, first
   the four header bytes and then the rest: the read handler is called with
   the body, whatever the two error codes. *)
Lemma client_receives_frame u c storage body ec1 ec2 :
  reads (Client.socket_ c) = [read_header_op] ->
  Z.of_nat (List.length body) <= max_body_length ->
  stops (skipn 4 (fresh_header u)) = true ->
  let n := Z.of_nat (List.length body) in
  let frame := write_buffer (fst (net_message_ctor storage body n)) in
  exists c',
    Client.read_loop u [(ec1, firstn 4 frame); (ec2, skipn 4 frame)] c =
      Some (c', [ClientReadHandler body n]) /\
    reads (Client.socket_ c') = [read_header_op] /\
    Client.write_messages_ c' = Client.write_messages_ c.
Proof.
  intros Hr Hl Hs n frame. unfold max_body_length in Hl.
  assert (Hn : 0 <= n <= 9999) by (subst n; lia).
  pose proof (sprintf_4d_length n Hn) as Hh.
  assert (Hf : frame = Libc.sprintf_4d n ++ body)
    by (apply net_message_ctor_buffer; lia).
  assert (H4 : firstn 4 frame = Libc.sprintf_4d n)
    by (rewrite Hf, <- Hh; apply firstn_exact).
  assert (Hb : skipn 4 frame = body)
    by (rewrite Hf, <- Hh; apply skipn_exact).
  rewrite H4, Hb. clear H4 Hb Hf frame.
  destruct c as [[r w o] rm q]. cbn in Hr. subst r.
  cbn [Client.read_loop]. unfold Client.complete at 1.
  cbn [Client.socket_ reads].
  unfold exec, effects, Client.handle_read_header, Client.read_body,
    bind, get, modify, emit_all.
  cbn [Client.read_message_ Client.set_read_message Client.set_socket
       Client.socket_ Client.write_messages_].
  rewrite (decode_received_header _ rm n Hn Hs).
  destruct (Z.ltb_spec max_body_length n) as [Hbig | _];
    [unfold max_body_length in Hbig; lia |].
  cbn [fst snd finish_read start_read reads writes wire_out app
       Client.read_message_ Client.set_read_message Client.set_socket
       Client.socket_ Client.write_messages_ get_body_length body_length_].
  unfold Client.complete. cbn [Client.socket_ reads].
  unfold exec, effects, Client.handle_read_body, Client.read_header,
    bind, get, modify, emit.
  cbn [fst snd finish_read start_read reads writes wire_out app
       Client.read_message_ Client.set_read_message Client.set_socket
       Client.socket_ Client.write_messages_].
  destruct (received_body (Libc.sprintf_4d n) (skipn 4 (data_ rm)) body Hh)
    as [Hlen Hbody].
  fold n in Hlen, Hbody. rewrite Hlen, Hbody.
  eexists. split; [reflexivity |]. split; reflexivity.
Qed.

(* The same for a connection of the server, whose header read must not
   complete with EOF or connection-reset. *)
Lemma connection_receives_frame u c storage body ec1 ec2 :
  reads (socket_ c) = [read_header_op] ->
  peer_closed ec1 = false ->
  Z.of_nat (List.length body) <= max_body_length ->
  stops (skipn 4 (fresh_header u)) = true ->
  let n := Z.of_nat (List.length body) in
  let frame := write_buffer (fst (net_message_ctor storage body n)) in
  exists c',
    connection_run u
      [io_completes (read_completes ec1 (firstn 4 frame));
       io_completes (read_completes ec2 (skipn 4 frame))] c =
      Some (c', [ReadHandler (to_size_t (get_id c)) (body ++ [x00]) n]) /\
    reads (socket_ c') = [read_header_op] /\
    write_messages_ c' = write_messages_ c /\
    writes (socket_ c') = writes (socket_ c).
Proof.
  intros Hr Hec Hl Hs n frame. unfold max_body_length in Hl.
  assert (Hn : 0 <= n <= 9999) by (subst n; lia).
  pose proof (sprintf_4d_length n Hn) as Hh.
  assert (Hf : frame = Libc.sprintf_4d n ++ body)
    by (apply net_message_ctor_buffer; lia).
  assert (H4 : firstn 4 frame = Libc.sprintf_4d n)
    by (rewrite Hf, <- Hh; apply firstn_exact).
  assert (Hb : skipn 4 frame = body)
    by (rewrite Hf, <- Hh; apply skipn_exact).
  rewrite H4, Hb. clear H4 Hb Hf frame.
  destruct c as [[r w o] v rm q id]. cbn in Hr. subst r.
  cbn [connection_run connection_step]. unfold complete at 1.
  cbn [socket_ reads].
  assert (Hhandler : handle_read_header u ec1 =
    (c <- get ;;
     let '(m, warn) := decode_header (fresh_header u) (read_message_ c) in
     modify (set_read_message m) ;; emit_all warn ;; read_body)).
  { destruct ec1; try reflexivity; discriminate. }
  rewrite Hhandler. clear Hhandler.
  unfold exec, effects, read_body, bind, get, modify, emit_all.
  cbn [read_message_ set_read_message set_socket socket_ write_messages_
       valid_ id_].
  rewrite (decode_received_header _ rm n Hn Hs).
  destruct (Z.ltb_spec max_body_length n) as [Hbig | _];
    [unfold max_body_length in Hbig; lia |].
  cbn [fst snd finish_read start_read reads writes wire_out app
       read_message_ set_read_message set_socket socket_ write_messages_
       valid_ id_ get_body_length body_length_].
  unfold complete. cbn [socket_ reads].
  unfold exec, effects, handle_read_body, read_header, bind, get, modify, emit.
  cbn [fst snd finish_read start_read reads writes wire_out app
       read_message_ set_read_message set_socket socket_ write_messages_
       valid_ id_ get_id].
  destruct (received_body (Libc.sprintf_4d n) (skipn 4 (data_ rm)) body Hh)
    as [Hlen Hbody].
  fold n in Hlen, Hbody. rewrite Hlen, Hbody.
  eexists. split; [reflexivity |]. repeat split.
Qed.

(** * The client's send and write completion *)

Section ClientWriteLoop.

Variable u : uninitialised.

Lemma client_send_done body length c :
  let msg := fst (net_message_ctor (fresh_message u) body length) in
  Client.write_messages_ (exec (Client.send u body length) c) =
    Client.write_messages_ c ++ [msg] /\
  Client.socket_ (exec (Client.send u body length) c) =
    match Client.write_messages_ c with
    | [] => start_write (write_buffer msg) (Client.socket_ c)
    | _ :: _ => Client.socket_ c
    end /\
  effects (Client.send u body length) c =
    snd (net_message_ctor (fresh_message u) body length).
Proof.
  intros msg. subst msg. unfold Client.send.
  destruct (net_message_ctor (fresh_message u) body length) as [msg warn].
  unfold exec, effects, Client.do_write, bind, get, modify, emit_all, ret.
  destruct c as [s rm q]. destruct q as [| m q]; cbn;
    rewrite ?app_nil_r; repeat split.
Qed.

Lemma client_write_done_ok c buffer rest :
  writes (Client.socket_ c) = buffer :: rest ->
  exists c',
    Client.complete u (write_completes ec_success) c = Some (c', []) /\
    Client.write_messages_ c' = tl (Client.write_messages_ c) /\
    wire_out (Client.socket_ c') = wire_out (Client.socket_ c) ++ [buffer] /\
    reads (Client.socket_ c') = reads (Client.socket_ c) /\
    writes (Client.socket_ c') =
      match tl (Client.write_messages_ c) with
      | next :: _ => rest ++ [write_buffer next]
      | [] => rest
      end.
Proof.
  intros H. unfold Client.complete. rewrite H.
  unfold exec, effects, Client.handle_write, Client.do_write,
    bind, get, modify, ret.
  destruct c as [s r q]; cbn in *.
  destruct q as [| m [| m' q]]; cbn; eexists; repeat split; reflexivity.
Qed.

End ClientWriteLoop.

(** * From one side to the other *)

(** X16: from the server to a client.  A connection with an empty queue is
    handed, by send, the message that the constructor builds for a body of
    at most 512 bytes, and the write completes without error.  Then one
    frame went to the socket, and a client whose read loop waits for a
    header and that is given this frame, first the four header bytes and
    then the rest, calls its read handler once, with exactly the body and
    its length, whatever the error codes of the two reads; the byte behind
    the four header bytes of decode_header's local array must stop atoi. *)
Theorem server_frame_reaches_client u conn cl body ec1 ec2 :
  write_messages_ conn = [] -> writes (socket_ conn) = [] ->
  reads (Client.socket_ cl) = [read_header_op] ->
  Z.of_nat (List.length body) <= max_body_length ->
  stops (skipn 4 (fresh_header u)) = true ->
  let n := Z.of_nat (List.length body) in
  let msg := fst (net_message_ctor (fresh_message u) body n) in
  exists conn' frame cl',
    connection_run u
      [send_called msg; io_completes (write_completes ec_success)] conn =
      Some (conn', []) /\
    wire_out (socket_ conn') = wire_out (socket_ conn) ++ [frame] /\
    write_messages_ conn' = [] /\
    Client.read_loop u [(ec1, firstn 4 frame); (ec2, skipn 4 frame)] cl =
      Some (cl', [ClientReadHandler body n]) /\
    reads (Client.socket_ cl') = [read_header_op].
Proof.
  intros Hq Hw Hr Hl Hs n msg.
  assert (Hl' : n <= 9999) by (unfold max_body_length in Hl; subst n; lia).
  pose proof (queued_buffer u (fresh_message u) body Hl) as Hframe.
  fold n in Hframe. fold msg in Hframe.
  pose proof (net_message_ctor_buffer (fresh_message u) body Hl') as Hctor.
  fold n in Hctor. fold msg in Hctor.
  cbn [connection_run connection_step].
  rewrite send_effects.
  pose proof (send_queue u msg conn) as Hq1. rewrite Hq in Hq1.
  pose proof (send_socket u msg conn) as Hs1. rewrite Hq in Hs1.
  assert (Hw1 : writes (socket_ (exec (send u msg) conn)) =
                [write_buffer (queued u msg)])
    by (rewrite Hs1; cbn [start_write writes]; rewrite Hw; reflexivity).
  destruct (write_done_ok u _ _ _ Hw1) as (conn' & -> & Hq' & Hwire & _ & _).
  destruct (client_receives_frame u cl (fresh_message u) body ec1 ec2
              Hr Hl Hs) as (cl' & Hloop & Hreads & _).
  fold n in Hloop. fold msg in Hloop. rewrite Hctor, <- Hframe in Hloop.
  exists conn', (write_buffer (queued u msg)), cl'.
  split; [reflexivity |].
  split; [rewrite Hwire, Hs1; reflexivity |].
  split; [rewrite Hq', Hq1; reflexivity |].
  split; [exact Hloop | exact Hreads].
Qed.

Lemma server_frame_reaches_client_witness :
  let msg := fst (net_message_ctor (fresh_message zeroed) (bytes "hello") 5) in
  exists conn' frame cl',
    connection_run zeroed
      [send_called msg; io_completes (write_completes ec_success)]
      (tcp_connection_ctor zeroed 0) = Some (conn', []) /\
    wire_out (socket_ conn') = [] ++ [frame] /\
    write_messages_ conn' = [] /\
    Client.read_loop zeroed [(ec_success, firstn 4 frame);
                             (ec_success, skipn 4 frame)]
      (Client.net_client_ctor zeroed) =
      Some (cl', [ClientReadHandler (bytes "hello") 5]) /\
    reads (Client.socket_ cl') = [read_header_op].
Proof.
  intros msg.
  exact (server_frame_reaches_client zeroed (tcp_connection_ctor zeroed 0)
           (Client.net_client_ctor zeroed) (bytes "hello")
           ec_success ec_success eq_refl eq_refl eq_refl
           ltac:(vm_compute; discriminate) eq_refl).
Defined.

(** X17: from a client to the server.  A client with an empty queue calls
    send with a body of at most 512 bytes and its length, and the write
    completes without error.  Then nothing was printed, one frame went to
    the socket, and a connection of the server whose read loop waits for a
    header and that is given this frame, first the four header bytes and
    then the rest, calls the read handler once, with its id, the body
    followed by a NUL, and the length of the body; the header read must not
    complete with EOF or connection-reset, and the byte behind the four
    header bytes of decode_header's local array must stop atoi. *)
Theorem client_frame_reaches_server u cl conn body ec1 ec2 :
  Client.write_messages_ cl = [] -> writes (Client.socket_ cl) = [] ->
  reads (socket_ conn) = [read_header_op] ->
  peer_closed ec1 = false ->
  Z.of_nat (List.length body) <= max_body_length ->
  stops (skipn 4 (fresh_header u)) = true ->
  let n := Z.of_nat (List.length body) in
  exists cl' frame conn',
    client_run u
      [client_sends body n; client_io_completes (write_completes ec_success)]
      cl = Some (cl', []) /\
    wire_out (Client.socket_ cl') = wire_out (Client.socket_ cl) ++ [frame] /\
    Client.write_messages_ cl' = [] /\
    connection_run u
      [io_completes (read_completes ec1 (firstn 4 frame));
       io_completes (read_completes ec2 (skipn 4 frame))] conn =
      Some (conn', [ReadHandler (to_size_t (get_id conn)) (body ++ [x00]) n])
    /\ reads (socket_ conn') = [read_header_op].
Proof.
  intros Hq Hw Hr Hec Hl Hs n.
  set (msg := fst (net_message_ctor (fresh_message u) body n)).
  cbn [client_run client_step].
  destruct (client_send_done u body n cl) as (Hq1 & Hs1 & He1).
  fold msg in Hq1, Hs1. rewrite Hq in Hq1, Hs1.
  rewrite He1, (net_message_ctor_quiet _ _ _ Hl).
  assert (Hw1 : writes (Client.socket_ (exec (Client.send u body n) cl)) =
                [write_buffer msg])
    by (rewrite Hs1; cbn [start_write writes]; rewrite Hw; reflexivity).
  destruct (client_write_done_ok u _ _ _ Hw1)
    as (cl' & -> & Hq' & Hwire & _ & _).
  destruct (connection_receives_frame u conn (fresh_message u) body ec1 ec2
              Hr Hec Hl Hs) as (conn' & Hrun & Hreads & _).
  exists cl', (write_buffer msg), conn'.
  split; [reflexivity |].
  split; [rewrite Hwire, Hs1; reflexivity |].
  split; [rewrite Hq', Hq1; reflexivity |].
  split; [exact Hrun | exact Hreads].
Qed.

Lemma client_frame_reaches_server_witness :
  let conn := exec (start zeroed) (tcp_connection_ctor zeroed 3) in
  exists cl' frame conn',
    client_run zeroed
      [client_sends (bytes "hi") 2;
       client_io_completes (write_completes ec_success)]
      (Client.net_client_ctor zeroed) = Some (cl', []) /\
    wire_out (Client.socket_ cl') = [] ++ [frame] /\
    Client.write_messages_ cl' = [] /\
    connection_run zeroed
      [io_completes (read_completes ec_success (firstn 4 frame));
       io_completes (read_completes ec_success (skipn 4 frame))] conn =
      Some (conn', [ReadHandler 3 (bytes "hi" ++ [x00]) 2])
    /\ reads (socket_ conn') = [read_header_op].
Proof.
  intros conn.
  exact (client_frame_reaches_server zeroed (Client.net_client_ctor zeroed)
           conn (bytes "hi") ec_success ec_success eq_refl eq_refl eq_refl
           eq_refl ltac:(vm_compute; discriminate) eq_refl).
Defined.

(** * The game of the connect4 server *)

Lemma nth_replace_nth_other {A} (i k : nat) (v d : A) l :
  i <> k -> nth i (replace_nth k v l) d = nth i l d.
Proof.
  intros Hne. unfold replace_nth.
  destruct (Nat.lt_ge_cases k (List.length l)) as [Hk | Hk].
  - destruct (nth_error l k) as [y |] eqn:Hn;
      [| apply nth_error_None in Hn; lia].
    destruct (nth_error_split l k Hn) as (l1 & l2 & -> & <-).
    rewrite firstn_exact, skipn_exact.
    destruct (Nat.lt_ge_cases i (List.length l1)) as [Hi | Hi].
    + rewrite !app_nth1 by exact Hi. reflexivity.
    + rewrite !app_nth2 by exact Hi.
      destruct (i - List.length l1)%nat as [| m] eqn:E; [lia | reflexivity].
  - rewrite skipn_all2 by exact Hk. rewrite firstn_all2 by exact Hk.
    rewrite app_nil_r. reflexivity.
Qed.

Lemma existsb_ext_in {A} (f g : A -> bool) l :
  (forall a, In a l -> f a = g a) -> existsb f l = existsb g l.
Proof.
  induction l as [| a l IH]; intros H; [reflexivity |].
  cbn [existsb]. rewrite (H a (or_introl eq_refl)), IH; [reflexivity |].
  intros b Hb. apply H. right. exact Hb.
Qed.

(* check_for_win reads the first six columns only. *)
Lemma check_for_win_columns p g g' :
  (forall i j, (j < Connect4.cols - 1)%nat ->
     Connect4.tile_at g i j = Connect4.tile_at g' i j) ->
  Connect4.check_for_win p g = Connect4.check_for_win p g'.
Proof.
  intros H. unfold Connect4.check_for_win.
  change Connect4.cols with 7%nat in *. change Connect4.rows with 6%nat.
  cbn [Nat.sub] in *.
  f_equal; [f_equal; [f_equal |] |];
    apply existsb_ext_in; intros a Ha; apply in_seq in Ha;
    apply existsb_ext_in; intros b Hb; apply in_seq in Hb;
    rewrite !H by lia; reflexivity.
Qed.

(** X18: what check_for_win reads.  A tile put into the last column, by
    apply_move for either player and in any row, never changes the result
    of check_for_win: none of its four pairs of loops reads a tile of the
    column cols - 1. *)
Theorem check_for_win_ignores_last_column p q row g :
  Connect4.check_for_win p
    (Connect4.apply_move q row (Connect4.cols - 1) g) =
  Connect4.check_for_win p g.
Proof.
  apply check_for_win_columns. intros i j Hj.
  change Connect4.cols with 7%nat in *. cbn [Nat.sub] in *.
  unfold Connect4.apply_move.
  destruct (Byte.eqb q "1"); unfold Connect4.tile_at, Connect4.set_tile;
    cbn [Connect4.board]; change Connect4.cols with 7%nat;
    apply nth_replace_nth_other; lia.
Qed.

Ltac line_cells :=
  repeat match goal with
  | H : _ && _ = true |- _ => apply andb_prop in H; destruct H
  | H : (_ =? _) = true |- _ => apply Z.eqb_eq in H
  end.

(** X19: what check_for_win detects.  When none of the six tiles that
    check_for_win reads behind the board, in the row of index rows, is the
    player's tile, check_for_win returns true exactly when four of the
    player's tiles are in a line, in a row, a column or a diagonal, within
    the rows of the board and its columns 0 to cols - 2. *)
Theorem check_for_win_detects p g :
  (forall j, (j < Connect4.cols - 1)%nat ->
     Connect4.tile_at g Connect4.rows j <> tile_of p) ->
  Connect4.check_for_win p g = true <->
  four_in_line (tile_of p) g (Connect4.cols - 1).
Proof.
  intros Hbehind. unfold Connect4.check_for_win. fold (tile_of p).
  set (t := tile_of p) in *. clearbody t.
  change Connect4.cols with 7%nat in *. change Connect4.rows with 6%nat in *.
  cbn [Nat.sub] in *.
  split.
  - intros H. rewrite !orb_true_iff in H.
    destruct H as [[[H | H] | H] | H];
      apply existsb_exists in H; destruct H as (a & Ha & H);
      apply existsb_exists in H; destruct H as (b & Hb & H);
      apply in_seq in Ha; apply in_seq in Hb; line_cells.
    + destruct (Nat.eq_dec b 6) as [-> | Hne];
        [exfalso; apply (Hbehind a); [lia | assumption] |].
      apply (four_across t g 6 b a); try assumption;
        change Connect4.rows with 6%nat; lia.
    + destruct (Nat.eq_dec a 3) as [-> | Hne];
        [exfalso; apply (Hbehind b); [lia | assumption] |].
      apply (four_down t g 6 a b); try assumption;
        change Connect4.rows with 6%nat; lia.
    + destruct (Nat.eq_dec a 6) as [-> | Hne];
        [exfalso; apply (Hbehind b); [lia | assumption] |].
      apply (four_rising t g 6 (a - 3) b);
        try (change Connect4.rows with 6%nat; lia).
      * replace (a - 3 + 3)%nat with a by lia. assumption.
      * replace (a - 3 + 2)%nat with (a - 1)%nat by lia. assumption.
      * replace (a - 3 + 1)%nat with (a - 2)%nat by lia. assumption.
    + destruct (Nat.eq_dec a 6) as [-> | Hne];
        [exfalso; apply (Hbehind b); [lia | assumption] |].
      apply (four_falling t g 6 (a - 3) (b - 3));
        try (change Connect4.rows with 6%nat; lia).
      * replace (a - 3 + 1)%nat with (a - 2)%nat by lia.
        replace (b - 3 + 1)%nat with (b - 2)%nat by lia. assumption.
      * replace (a - 3 + 2)%nat with (a - 1)%nat by lia.
        replace (b - 3 + 2)%nat with (b - 1)%nat by lia. assumption.
      * replace (a - 3 + 3)%nat with a by lia.
        replace (b - 3 + 3)%nat with b by lia. assumption.
  - intros H. rewrite !orb_true_iff.
    destruct H as [i j Hi Hj H0 H1 H2 H3 | i j Hi Hj H0 H1 H2 H3
                  | i j Hi Hj H0 H1 H2 H3 | i j Hi Hj H0 H1 H2 H3];
      change Connect4.rows with 6%nat in Hi.
    + left. left. left.
      apply existsb_exists. exists j. split; [apply in_seq; lia |].
      apply existsb_exists. exists i. split; [apply in_seq; lia |].
      rewrite !andb_true_iff, !Z.eqb_eq. auto.
    + left. left. right.
      apply existsb_exists. exists i. split; [apply in_seq; lia |].
      apply existsb_exists. exists j. split; [apply in_seq; lia |].
      rewrite !andb_true_iff, !Z.eqb_eq. auto.
    + left. right.
      apply existsb_exists. exists (i + 3)%nat.
      split; [apply in_seq; lia |].
      apply existsb_exists. exists j. split; [apply in_seq; lia |].
      replace (i + 3 - 1)%nat with (i + 2)%nat by lia.
      replace (i + 3 - 2)%nat with (i + 1)%nat by lia.
      replace (i + 3 - 3)%nat with i by lia.
      rewrite !andb_true_iff, !Z.eqb_eq. auto.
    + right.
      apply existsb_exists. exists (i + 3)%nat.
      split; [apply in_seq; lia |].
      apply existsb_exists. exists (j + 3)%nat.
      split; [apply in_seq; lia |].
      replace (i + 3 - 1)%nat with (i + 2)%nat by lia.
      replace (i + 3 - 2)%nat with (i + 1)%nat by lia.
      replace (i + 3 - 3)%nat with i by lia.
      replace (j + 3 - 1)%nat with (j + 2)%nat by lia.
      replace (j + 3 - 2)%nat with (j + 1)%nat by lia.
      replace (j + 3 - 3)%nat with j by lia.
      rewrite !andb_true_iff, !Z.eqb_eq. auto.
Qed.

Lemma check_for_win_detects_witness :
  let g := Connect4.game_ctor
             (repeat 0 35 ++ [1; 1; 1; 1; 0; 0; 0] ++ [49; 0; 0; 0; 0; 0]) in
  Connect4.check_for_win "1" g = true /\
  four_in_line (tile_of "1") g (Connect4.cols - 1).
Proof.
  intros g. split; [reflexivity |].
  apply (proj1 (check_for_win_detects "1" g
    ltac:(intros j Hj;
          do 6 (destruct j as [| j]; [vm_compute; discriminate |]);
          vm_compute in Hj; lia))).
  reflexivity.
Defined.

(** X20: clear_board.  On a board whose rows * cols tiles are there,
    clear_board makes each of them empty, leaves the memory behind the
    board and the turn as they are, and check_for_draw then answers
    false. *)
Theorem clear_board_clears g :
  (Connect4.rows * Connect4.cols <= List.length (Connect4.board g))%nat ->
  let g' := Connect4.clear_board g in
  Connect4.board g' =
    repeat Connect4.empty (Connect4.rows * Connect4.cols) ++
    skipn (Connect4.rows * Connect4.cols) (Connect4.board g) /\
  Connect4.turn g' = Connect4.turn g /\
  Connect4.check_for_draw g' = false.
Proof.
  destruct g as [l t]. cbn [Connect4.board Connect4.turn].
  change (Connect4.rows * Connect4.cols)%nat with 42%nat.
  intros H.
  do 42 (destruct l as [| ? l]; [cbn [List.length] in H; lia |]).
  clear H. cbv. repeat split.
Qed.

Lemma clear_board_clears_witness :
  let g := Connect4.game_ctor (repeat 7 42 ++ [49; 3]) in
  Connect4.board (Connect4.clear_board g) = repeat 0 42 ++ [49; 3] /\
  Connect4.turn (Connect4.clear_board g) = "1"%byte /\
  Connect4.check_for_draw (Connect4.clear_board g) = false.
Proof.
  intros g.
  exact (clear_board_clears g ltac:(vm_compute; lia)).
Defined.

(** * Failures *)

(** X21: an accept that fails.  When the outstanding accept completes with
    an error, the server is afterwards in the state it was in: no id is
    used up, no connection is registered, the next accept is outstanding,
    and neither handler of the application is called. *)
Theorem failed_accept_changes_nothing u ec s :
  is_error ec = true ->
  accepts (acceptor_ s) = 1%nat ->
  server_step u (accept_completes ec) s = Some (s, []).
Proof.
  intros Hec Hacc. cbn [server_step]. rewrite Hacc. unfold run_member.
  destruct (handle_accept_failure u ec (set_accepts 0 s) Hec) as [-> ->].
  destruct s as [[n] next cs]. cbn in Hacc. subst n. reflexivity.
Qed.

Lemma failed_accept_changes_nothing_witness :
  server_step zeroed (accept_completes (ec_other 24)) net_server_ctor =
    Some (net_server_ctor, []).
Proof.
  exact (failed_accept_changes_nothing zeroed (ec_other 24) net_server_ctor
           eq_refl eq_refl).
Defined.


Section Stalled.

Variable u : uninitialised.



End Stalled.


